(** * The admin panel: orders table and settings page

    A shallow embedding of [OrdersTable] (the orders viewer) and of
    [Admin] (the settings page), together with the query interface both
    pages consume, and the properties the specification states about
    them. *)

From Stdlib Require Import ZArith Lia.
From stdpp Require Import base list list_monad strings sorting gmap.

Open Scope Z_scope.

(** ** The [number] type

    Prices, quantities and amounts are TypeScript [number]s, that is
    IEEE-754 doubles.  The rows come from integer columns, so every
    number in play is an integer or an infinity produced by overflow;
    [Fin z] is the double whose value is the integer [z].  Sums and
    products are rounded to 53 significant bits, nearest with ties to
    even, as the language does.  The two zeros are identified: the pages
    never divide and render both as 0. *)
Module Number.

Inductive number : Type :=
| Fin (z : Z)
| PosInf
| NegInf
| NaN.

Definition precision : Z := 53.

(** Largest magnitude before a rounded result becomes an infinity. *)
Definition overflow : Z := 2 ^ 1024.

(** [a / 2^k] rounded to the nearest integer, ties to the even one
    ([0 < k], [0 <= a]). *)
Definition round_shift (a k : Z) : Z :=
  let q := Z.shiftr a k in
  let r := a - Z.shiftl q k in
  let half := Z.shiftl 1 (k - 1) in
  if r <? half then q
  else if half <? r then q + 1
  else if Z.even q then q else q + 1.

(** The nearest magnitude with at most [precision] significant bits. *)
Definition round_magnitude (a : Z) : Z :=
  let bits := Z.log2 a + 1 in
  if bits <=? precision then a
  else let k := bits - precision in Z.shiftl (round_shift a k) k.

(** The double nearest to the exact integer result [z]. *)
Definition fl (z : Z) : number :=
  let m := round_magnitude (Z.abs z) in
  if overflow <=? m then (if z <? 0 then NegInf else PosInf)
  else Fin (Z.sgn z * m).

(** [x + y] *)
Definition add (x y : number) : number :=
  match x, y with
  | NaN, _ | _, NaN => NaN
  | PosInf, NegInf | NegInf, PosInf => NaN
  | PosInf, _ | _, PosInf => PosInf
  | NegInf, _ | _, NegInf => NegInf
  | Fin a, Fin b => fl (a + b)
  end.

Definition negative (x : number) : bool :=
  match x with
  | Fin z => z <? 0
  | NegInf => true
  | _ => false
  end.

Definition is_zero (x : number) : bool :=
  match x with
  | Fin z => z =? 0
  | _ => false
  end.

(** [x * y]; zero times an infinity is not a number. *)
Definition mul (x y : number) : number :=
  match x, y with
  | NaN, _ | _, NaN => NaN
  | Fin a, Fin b => fl (a * b)
  | _, _ =>
      if is_zero x || is_zero y then NaN
      else if xorb (negative x) (negative y) then NegInf else PosInf
  end.

End Number.

Import Number.


(** ** The data store

    The pages reach a hosted store through the [supabase] client.  The
    store, its tables and the client are not part of the pages; they are
    taken from section 6 of the specification: the schema ([orders],
    [order_items], [settings] with a unique [key]) and a query interface
    whose operations each return a result set or an error. *)
Module Schema.

Module Orders.
(** Modelled from the spec: a row of the [orders] table, with the columns
    the orders query selects.  [delivery_fee] and [total_amount] are the
    integer columns the migration adds. *)
Record row : Type := {
  id : string;
  order_token : string;
  name : string;
  phone : string;
  email : string;
  special_instructions : string;
  payment_proof_url : option string;
  payment_method : string;
  (** the instant the order was created; the store orders by it *)
  created_at : Z;
  delivery_fee : Z;
  total_amount : Z
}.
End Orders.

Module OrderItems.
(** Modelled from the spec: a row of the [order_items] table. *)
Record row : Type := {
  order_id : string;
  product_name : string;
  price : Z;
  quantity : Z
}.
End OrderItems.

Module Settings.
(** Modelled from the spec: a row of the [settings] table. *)
Record row : Type := {
  id : nat;
  key : string;
  value : string;
  description : option string;
  updated_at : string
}.
End Settings.

(** Modelled from the spec: the state of the store, its three tables. *)
Record Db : Type := {
  orders : list Orders.row;
  order_items : list OrderItems.row;
  settings : list Settings.row;
  (** the store's own clock, the default of [updated_at] *)
  clock : string
}.

(** Modelled from the spec: the 32-bit range of an [integer] column. *)
Definition int4 (z : Z) : Prop := - 2 ^ 31 <= z < 2 ^ 31.

(** Modelled from the spec: the uniqueness constraint on [settings.key]. *)
Definition settings_unique (db : Db) : Prop :=
  NoDup (Settings.key <$> settings db).

End Schema.

Import Schema.

(** ** The query interface *)
Module Postgrest.

(** Modelled from the spec: the errors a query can return. *)
Inductive PostgrestError : Type :=
| Unavailable        (** the request did not succeed *)
| MultipleRows       (** [maybeSingle] found more than one row *)
| UniqueViolation.   (** an insert repeats a unique key *)

(** Modelled from the spec: what a query resolves to, a result set or an
    error.  The pages destructure it as [{ data, error }]; [data] is
    [null] when there is an error, and when [maybeSingle] finds no row. *)
Record response (T : Type) : Type := {
  data : option T;
  error : option PostgrestError
}.
Arguments data {T} _.
Arguments error {T} _.

Definition success {T} (d : option T) : response T :=
  {| data := d; error := None |}.
Definition failure {T} (e : PostgrestError) : response T :=
  {| data := None; error := Some e |}.

(** The queries the two pages issue. *)
Inductive Query : Type :=
| SelectOrders
| SelectItems (order_id : string)
| SelectSettingValue (key : string)
| SelectSettingId (key : string)
| UpdateSetting (key value updated_at : string)
| InsertSetting (key value description : string).

(** Modelled from the spec: [.maybeSingle()], a single lookup in which
    no row is not an error, and several rows are. *)
Definition maybeSingle {T} (rows : list T) : response T :=
  match rows with
  | [] => success None
  | [r] => success (Some r)
  | _ => failure MultipleRows
  end.

(** [a] was created no earlier than [b]. *)
Definition newest_first (a b : Orders.row) : Prop :=
  Orders.created_at b <= Orders.created_at a.

Global Instance newest_first_dec a b : Decision (newest_first a b).
Proof. unfold newest_first. apply _. Defined.

(** Modelled from the spec: [.order('created_at', { ascending: false })],
    the rows ordered by creation time, newest first. *)
Definition order_created_at_desc (rows : list Orders.row) : list Orders.row :=
  merge_sort newest_first rows.

(** Modelled from the spec: [.eq('key', k)] on the settings. *)
Definition with_key (k : string) (rows : list Settings.row) : list Settings.row :=
  filter (fun r => Settings.key r = k) rows.

(** Modelled from the spec: the [id] the store gives a new record. *)
Definition fresh_id (rows : list Settings.row) : nat :=
  S (foldr Nat.max 0%nat (Settings.id <$> rows)).

(** Modelled from the spec: [.update({ value, updated_at }).eq('key', k)],
    the patch applied to every record with the key. *)
Definition update_rows (k v now : string) (rows : list Settings.row)
  : list Settings.row :=
  (fun r =>
     if decide (Settings.key r = k)
     then {| Settings.id := Settings.id r;
             Settings.key := Settings.key r;
             Settings.value := v;
             Settings.description := Settings.description r;
             Settings.updated_at := now |}
     else r) <$> rows.

(** Modelled from the spec: the record [.insert([{ key, value,
    description }])] adds; [id] and [updated_at] take the store's
    defaults. *)
Definition inserted_row (db : Db) (k v d : string) : Settings.row :=
  {| Settings.id := fresh_id (settings db);
     Settings.key := k;
     Settings.value := v;
     Settings.description := Some d;
     Settings.updated_at := clock db |}.

(** The store with its settings replaced by [rows]. *)
Definition set_settings (db : Db) (rows : list Settings.row) : Db :=
  {| orders := orders db;
     order_items := order_items db;
     settings := rows;
     clock := clock db |}.

End Postgrest.

Import Postgrest.

(** ** Effects of an event handler

    A handler of a page runs against the page's state [C], the store,
    and a console.  [fault] tells which requests the store fails to
    answer during the run; [issued] records the requests in the order
    they were sent.  An [await] may also never resume ([Pending]). *)
Module Effects.

Record World (C : Type) : Type := {
  component : C;
  db : Db;
  fault : Query -> bool;
  issued : list Query;
  console : list (string * PostgrestError)
}.
Arguments component {C} _.
Arguments db {C} _.
Arguments fault {C} _.
Arguments issued {C} _.
Arguments console {C} _.

Inductive outcome (A : Type) : Type :=
| Returned (a : A)
| Thrown (e : PostgrestError)
| Pending.
Arguments Returned {A} _.
Arguments Thrown {A} _.
Arguments Pending {A}.

Definition M (C A : Type) : Type := World C -> outcome A * World C.

Section Combinators.
Context {C : Type}.

Definition ret {A} (a : A) : M C A := fun w => (Returned a, w).

Definition bind {A B} (m : M C A) (k : A -> M C B) : M C B :=
  fun w =>
    match m w with
    | (Returned a, w') => k a w'
    | (Thrown e, w') => (Thrown e, w')
    | (Pending, w') => (Pending, w')
    end.

(** [throw e] *)
Definition throw {A} (e : PostgrestError) : M C A :=
  fun w => (Thrown e, w).

(** [try { body } catch (err) { handler }] *)
Definition try_catch {A} (body : M C A) (handler : PostgrestError -> M C A)
  : M C A :=
  fun w =>
    match body w with
    | (Thrown e, w') => handler e w'
    | r => r
    end.

(** [try { body } finally { final }]: [final] runs when [body]
    completes, normally or not, and never while it is suspended. *)
Definition try_finally {A} (body : M C A) (final : M C unit) : M C A :=
  fun w =>
    match body w with
    | (Pending, w') => (Pending, w')
    | (r, w') =>
        match final w' with
        | (Returned _, w'') => (r, w'')
        | (Thrown e, w'') => (Thrown e, w'')
        | (Pending, w'') => (Pending, w'')
        end
    end.

(** A state setter of the page, [setX(v)]. *)
Definition setState (f : C -> C) : M C unit :=
  fun w =>
    (Returned tt,
     {| component := f (component w); db := db w; fault := fault w;
        issued := issued w; console := console w |}).

(** [console.error(label, err)] *)
Definition console_error (label : string) (err : PostgrestError) : M C unit :=
  fun w =>
    (Returned tt,
     {| component := component w; db := db w; fault := fault w;
        issued := issued w; console := console w ++ [(label, err)] |}).

(** Modelled from the spec: awaiting a query of the client.  The request
    is sent; when it fails the client resolves to an error response (it
    does not throw), otherwise the store answers it with [answer]. *)
Definition request {T} (q : Query) (answer : Db -> response T * Db)
  : M C (response T) :=
  fun w =>
    if fault w q
    then (Returned (failure Unavailable),
          {| component := component w; db := db w; fault := fault w;
             issued := issued w ++ [q]; console := console w |})
    else
      let (r, db') := answer (db w) in
      (Returned r,
       {| component := component w; db := db'; fault := fault w;
          issued := issued w ++ [q]; console := console w |}).

(** *** [Promise.all]

    Every task is started, in order, when the array of promises is
    built.  The promises then settle in the order [schedule] gives
    (a list of indices); each fulfilled one writes its own slot, a
    rejected one rejects the whole.  The result is delivered once
    every slot is filled. *)
Fixpoint start_all {A} (tasks : list (M C A)) (w : World C)
  : list (outcome A) * World C :=
  match tasks with
  | [] => ([], w)
  | t :: ts =>
      let (o, w') := t w in
      let (os, w'') := start_all ts w' in
      (o :: os, w'')
  end.

Fixpoint settle_all {A} (settled : list (outcome A)) (schedule : list nat)
    (values : list (option A)) : outcome (list A) :=
  match schedule with
  | [] =>
      match mapM (M := option) (fun slot => slot) values with
      | Some vs => Returned vs
      | None => Pending
      end
  | i :: rest =>
      match settled !! i with
      | Some (Returned v) => settle_all settled rest (<[i := Some v]> values)
      | Some (Thrown e) => Thrown e
      | _ => settle_all settled rest values
      end
  end.

Definition promise_all {A} (schedule : list nat) (tasks : list (M C A))
  : M C (list A) :=
  fun w =>
    let (settled, w') := start_all tasks w in
    (settle_all settled schedule (replicate (length settled) None), w').

End Combinators.

(** Every request is answered. *)
Definition no_faults : Query -> bool := fun _ => false.

Module Notations.
Notation "'let!' x ':=' m 'in' k" := (bind m (fun x => k))
  (at level 10, x name, m at level 100, k at level 200).
Notation "'do!' m 'then' k" := (bind m (fun _ : unit => k))
  (at level 10, m at level 100, k at level 200).
End Notations.

End Effects.

Import Effects.
Import Effects.Notations.

(** ** The orders table *)
Module OrdersTable.

Record OrderItem : Type := {
  product_name : string;
  price : Z;
  quantity : Z
}.

Record Order : Type := {
  id : string;
  order_token : string;
  name : string;
  phone : string;
  email : string;
  special_instructions : string;
  payment_proof_url : option string;
  payment_method : string;
  created_at : Z;
  delivery_fee : Z;
  total_amount : Z;
  items : list OrderItem
}.

(** The four [useState] cells of the component. *)
Record State : Type := {
  orders : list Order;
  loading : bool;
  error : option string;
  expandedOrderId : option string
}.

Definition initial : State :=
  {| orders := []; loading := true; error := None; expandedOrderId := None |}.

Definition setOrders (v : list Order) (st : State) : State :=
  {| orders := v; loading := loading st; error := error st;
     expandedOrderId := expandedOrderId st |}.
Definition setLoading (v : bool) (st : State) : State :=
  {| orders := orders st; loading := v; error := error st;
     expandedOrderId := expandedOrderId st |}.
Definition setError (v : option string) (st : State) : State :=
  {| orders := orders st; loading := loading st; error := v;
     expandedOrderId := expandedOrderId st |}.
Definition setExpandedOrderId (v : option string) (st : State) : State :=
  {| orders := orders st; loading := loading st; error := error st;
     expandedOrderId := v |}.

(** [from('orders').select(...).order('created_at', { ascending: false })] *)
Definition select_orders : M State (response (list Orders.row)) :=
  request SelectOrders
    (fun db => (success (Some (order_created_at_desc (Schema.orders db))), db)).

(** [.select('product_name, price, quantity')] *)
Definition item_columns (r : OrderItems.row) : OrderItem :=
  {| product_name := OrderItems.product_name r;
     price := OrderItems.price r;
     quantity := OrderItems.quantity r |}.

(** Modelled from the spec: the answer of the store to the item query of
    an order, the rows whose [order_id] matches. *)
Definition items_of (db : Db) (order_id : string) : list OrderItem :=
  item_columns <$>
    filter (fun r => OrderItems.order_id r = order_id) (Schema.order_items db).

(** [from('order_items').select('product_name, price, quantity')
     .eq('order_id', order.id)] *)
Definition select_items (order_id : string)
  : M State (response (list OrderItem)) :=
  request (SelectItems order_id)
    (fun db => (success (Some (items_of db order_id)), db)).

(** [{ ...order, items }] *)
Definition with_items (order : Orders.row) (its : list OrderItem) : Order :=
  {| id := Orders.id order;
     order_token := Orders.order_token order;
     name := Orders.name order;
     phone := Orders.phone order;
     email := Orders.email order;
     special_instructions := Orders.special_instructions order;
     payment_proof_url := Orders.payment_proof_url order;
     payment_method := Orders.payment_method order;
     created_at := Orders.created_at order;
     delivery_fee := Orders.delivery_fee order;
     total_amount := Orders.total_amount order;
     items := its |}.

(** The callback mapped over [ordersData]. *)
Definition join_items (order : Orders.row) : M State Order :=
  let! r := select_items (Orders.id order) in
  ret (with_items order (default [] (data r))).

Definition fetchOrders (schedule : list nat) : M State unit :=
  try_finally
    (try_catch
       (do! setState (setLoading true) then
        do! setState (setError None) then
        let! r := select_orders in
        match Postgrest.error r with
        | Some _ => setState (setError (Some "Failed to fetch orders"))
        | None =>
            match data r with
            | None => setState (setOrders [])
            | Some ordersData =>
                let! ordersWithItems :=
                  promise_all schedule (join_items <$> ordersData) in
                setState (setOrders ordersWithItems)
            end
        end)
       (fun err =>
          do! console_error "Error:" err then
          setState
            (setError (Some "Something went wrong while fetching orders"))))
    (setState (setLoading false)).

Definition calculateSubtotal (its : list OrderItem) : number :=
  foldl (fun sum item => add sum (mul (Fin (price item)) (Fin (quantity item))))
    (Fin 0) its.

(** [expandedOrderId === order.id] *)
Definition is_expanded (st : State) (order_id : string) : bool :=
  bool_decide (expandedOrderId st = Some order_id).

(** The [onClick] handler of an order's header. *)
Definition onClick (order_id : string) (st : State) : State :=
  setExpandedOrderId
    (if is_expanded st order_id then None else Some order_id) st.

(** *** What the component renders *)

Record ItemLine : Type := {
  line_product : string;
  line_price : Z;
  line_quantity : Z;
  line_total : number
}.

Record Details : Type := {
  customer_name : string;
  customer_phone : string;
  customer_email : string;
  shown_instructions : option string;
  item_lines : list ItemLine;
  shown_subtotal : number;
  shown_delivery_fee : option Z;
  shown_total : Z;
  payment_proof_link : option string
}.

Record Card : Type := {
  card_key : string;
  header_name : string;
  header_token : string;
  header_created_at : Z;
  header_total : Z;
  header_payment_method : string;
  chevron_up : bool;
  details : option Details
}.

Inductive View : Type :=
| Spinner
| ErrorBox (message : string)
| NoOrders
| OrderList (cards : list Card).

(** [s && ...] on a string: the empty string is falsy. *)
Definition truthy (s : string) : option string :=
  if decide (s = "") then None else Some s.

Definition render_line (item : OrderItem) : ItemLine :=
  {| line_product := product_name item;
     line_price := price item;
     line_quantity := quantity item;
     line_total := mul (Fin (price item)) (Fin (quantity item)) |}.

Definition render_details (order : Order) : Details :=
  {| customer_name := name order;
     customer_phone := phone order;
     customer_email := email order;
     shown_instructions := truthy (special_instructions order);
     item_lines := render_line <$> items order;
     shown_subtotal := calculateSubtotal (items order);
     shown_delivery_fee :=
       if 0 <? delivery_fee order then Some (delivery_fee order) else None;
     shown_total := total_amount order;
     payment_proof_link := payment_proof_url order ≫= truthy |}.

Definition render_card (st : State) (order : Order) : Card :=
  {| card_key := id order;
     header_name := name order;
     header_token := order_token order;
     header_created_at := created_at order;
     header_total := total_amount order;
     header_payment_method := payment_method order;
     chevron_up := is_expanded st (id order);
     details :=
       if is_expanded st (id order) then Some (render_details order)
       else None |}.

Definition render (st : State) : View :=
  if loading st then Spinner
  else match error st ≫= truthy with
       | Some message => ErrorBox message
       | None =>
           match orders st with
           | [] => NoOrders
           | _ => OrderList (render_card st <$> orders st)
           end
       end.

(** Running a handler of the component against a store. *)
Definition run {A} (handler : M State A) (faults : Query -> bool)
    (st : State) (store : Db) : outcome A * World State :=
  handler {| component := st; db := store; fault := faults;
             issued := []; console := [] |}.

(** The clicks of a session, oldest first. *)
Definition clicks (ids : list string) (st : State) : State :=
  foldl (fun s order_id => onClick order_id s) st ids.

End OrdersTable.

(** ** The settings page *)
Module Admin.

Inductive Tab : Type := settings_tab | orders_tab.

Inductive MessageType : Type := success_type | error_type.

Record Message : Type := { type : MessageType; text : string }.

Record State : Type := {
  activeTab : Tab;
  resendApiKey : string;
  showKey : bool;
  loading : bool;
  message : option Message;
  fetching : bool
}.

Definition initial : State :=
  {| activeTab := orders_tab; resendApiKey := ""; showKey := false;
     loading := false; message := None; fetching := true |}.

Definition setResendApiKey (v : string) (st : State) : State :=
  {| activeTab := activeTab st; resendApiKey := v; showKey := showKey st;
     loading := loading st; message := message st; fetching := fetching st |}.
Definition setLoading (v : bool) (st : State) : State :=
  {| activeTab := activeTab st; resendApiKey := resendApiKey st;
     showKey := showKey st; loading := v; message := message st;
     fetching := fetching st |}.
Definition setMessage (v : option Message) (st : State) : State :=
  {| activeTab := activeTab st; resendApiKey := resendApiKey st;
     showKey := showKey st; loading := loading st; message := v;
     fetching := fetching st |}.
Definition setFetching (v : bool) (st : State) : State :=
  {| activeTab := activeTab st; resendApiKey := resendApiKey st;
     showKey := showKey st; loading := loading st; message := message st;
     fetching := v |}.

Definition resend_api_key : string := "resend_api_key".
Definition static_description : string := "API key for Resend email service".

(** The rows [select('value')] and [select('id')] return. *)
Record ValueRow : Type := { value : string }.
Record IdRow : Type := { id : nat }.

(** [from('settings').select('value').eq('key', k).maybeSingle()] *)
Definition select_value (k : string) : M State (response ValueRow) :=
  request (SelectSettingValue k)
    (fun db =>
       (maybeSingle
          ((fun r => {| value := Settings.value r |}) <$>
             with_key k (Schema.settings db)), db)).

(** [from('settings').select('id').eq('key', k).maybeSingle()] *)
Definition select_id (k : string) : M State (response IdRow) :=
  request (SelectSettingId k)
    (fun db =>
       (maybeSingle
          ((fun r => {| id := Settings.id r |}) <$>
             with_key k (Schema.settings db)), db)).

(** [from('settings').update({ value, updated_at }).eq('key', k)] *)
Definition update_setting (k v now : string) : M State (response unit) :=
  request (UpdateSetting k v now)
    (fun db =>
       (success None, set_settings db (update_rows k v now (Schema.settings db)))).

(** [from('settings').insert([{ key, value, description }])]; the store
    refuses a second row with the same key. *)
Definition insert_setting (k v d : string) : M State (response unit) :=
  request (InsertSetting k v d)
    (fun db =>
       match with_key k (Schema.settings db) with
       | [] =>
           (success None,
            set_settings db (Schema.settings db ++ [inserted_row db k v d]))
       | _ => (failure UniqueViolation, db)
       end).

(** [if (error) throw error;] *)
Definition throw_on_error {T} (r : response T) : M State unit :=
  match Postgrest.error r with
  | Some e => throw e
  | None => ret tt
  end.

Definition loadSettings : M State unit :=
  try_catch
    (let! r := select_value resend_api_key in
     match Postgrest.error r with
     | Some e =>
         do! console_error "Error loading settings:" e then
         setState (setFetching false)
     | None =>
         do! match data r with
             | Some row => setState (setResendApiKey (value row))
             | None => ret tt
             end then
         setState (setFetching false)
     end)
    (fun err =>
       do! console_error "Error:" err then
       setState (setFetching false)).

(** [now] is what [new Date().toISOString()] gives during the call; the
    value saved is the [resendApiKey] of the render the handler
    belongs to. *)
Definition handleSave (now : string) : M State unit :=
  fun w =>
    let resendApiKey := resendApiKey (component w) in
    (do! setState (setLoading true) then
     do! setState (setMessage None) then
     try_finally
       (try_catch
          (let! existing := select_id resend_api_key in
           do! match data existing with
               | Some _ =>
                   let! r := update_setting resend_api_key resendApiKey now in
                   throw_on_error r
               | None =>
                   let! r :=
                     insert_setting resend_api_key resendApiKey
                       static_description in
                   throw_on_error r
               end then
           setState
             (setMessage
                (Some {| type := success_type;
                         text := "Resend API key saved successfully!" |})))
          (fun err =>
             do! console_error "Error:" err then
             setState
               (setMessage
                  (Some {| type := error_type;
                           text := "Failed to save settings. Please try again." |}))))
       (setState (setLoading false))) w.

(** Running a handler of the page against a store. *)
Definition run {A} (handler : M State A) (faults : Query -> bool)
    (st : State) (store : Db) : outcome A * World State :=
  handler {| component := st; db := store; fault := faults;
             issued := []; console := [] |}.

(** One save: the admin types [v] into the field and submits the form
    at time [now]; every request reaches the store. *)
Definition save (page : State * Db) (entry : string * string) : State * Db :=
  let w := (run (handleSave (snd entry)) no_faults
              (setResendApiKey (fst entry) (fst page)) (snd page)).2 in
  (component w, db w).

Definition saves (entries : list (string * string)) (page : State * Db)
  : State * Db :=
  foldl save page entries.

(** The records of the store that carry key [k]. *)
Definition records (k : string) (store : Db) : list Settings.row :=
  with_key k (Schema.settings store).

End Admin.

(** ** What the settings page renders *)
Module AdminView.

Definition setActiveTab (v : Admin.Tab) (st : Admin.State) : Admin.State :=
  {| Admin.activeTab := v; Admin.resendApiKey := Admin.resendApiKey st;
     Admin.showKey := Admin.showKey st; Admin.loading := Admin.loading st;
     Admin.message := Admin.message st; Admin.fetching := Admin.fetching st |}.
Definition setShowKey (v : bool) (st : Admin.State) : Admin.State :=
  {| Admin.activeTab := Admin.activeTab st;
     Admin.resendApiKey := Admin.resendApiKey st;
     Admin.showKey := v; Admin.loading := Admin.loading st;
     Admin.message := Admin.message st; Admin.fetching := Admin.fetching st |}.

(** [onChange={(e) => setResendApiKey(e.target.value)}] *)
Definition onChange (v : string) (st : Admin.State) : Admin.State :=
  Admin.setResendApiKey v st.

(** [onClick={() => setShowKey(!showKey)}] *)
Definition onToggleShowKey (st : Admin.State) : Admin.State :=
  setShowKey (negb (Admin.showKey st)) st.

Inductive InputType : Type := text_input | password_input.

(** The settings form. *)
Record Form : Type := {
  banner : option Admin.Message;
  input_type : InputType;
  input_value : string;
  eye_off_icon : bool;
  submit_disabled : bool;
  submit_label : string
}.

Inductive View : Type :=
| LoadingSettings
| Page (orders_highlighted settings_highlighted : bool)
       (orders_table : bool) (settings_form : option Form).

Definition render_form (st : Admin.State) : Form :=
  {| banner := Admin.message st;
     input_type := if Admin.showKey st then text_input else password_input;
     input_value := Admin.resendApiKey st;
     eye_off_icon := Admin.showKey st;
     submit_disabled :=
       Admin.loading st || bool_decide (Admin.resendApiKey st = "");
     submit_label := if Admin.loading st then "Saving..." else "Save Settings" |}.

Definition is_tab (st : Admin.State) (t : Admin.Tab) : bool :=
  match Admin.activeTab st, t with
  | Admin.orders_tab, Admin.orders_tab => true
  | Admin.settings_tab, Admin.settings_tab => true
  | _, _ => false
  end.

Definition render (st : Admin.State) : View :=
  if Admin.fetching st then LoadingSettings
  else
    Page (is_tab st Admin.orders_tab) (is_tab st Admin.settings_tab)
      (is_tab st Admin.orders_tab)
      (if is_tab st Admin.settings_tab then Some (render_form st) else None).

End AdminView.

(** ** The migration

    The [DO] block that adds [delivery_fee] and [total_amount] to
    [orders], run against a catalog of tables.  One schema is in view:
    a table is found by its name. *)
Module Migration.

Inductive datum : Type :=
| DInt (z : Z)
| DText (s : string)
| DNull.

Record column : Type := {
  column_name : string;
  data_type : string;
  column_default : option datum
}.

(** A table: its columns, and its rows as maps from column name to
    value. *)
Record table : Type := {
  columns : list column;
  rows : list (gmap string datum)
}.

Inductive SqlError : Type :=
| UndefinedTable (t : string)
| DuplicateColumn (t c : string).

Definition has_column (tb : table) (c : string) : bool :=
  bool_decide (c ∈ column_name <$> columns tb).

(** [SELECT 1 FROM information_schema.columns
     WHERE table_name = t AND column_name = c] returns a row. *)
Definition column_listed (db : gmap string table) (t c : string) : bool :=
  match db !! t with
  | Some tb => has_column tb c
  | None => false
  end.

(** The value a new column takes in the rows that exist. *)
Definition default_datum (col : column) : datum :=
  default DNull (column_default col).

(** [ALTER TABLE t ADD COLUMN ...]: refused when the table is missing or
    has a column of that name already; otherwise every row takes the
    default. *)
Definition add_column (t : string) (col : column) (db : gmap string table)
  : SqlError + gmap string table :=
  match db !! t with
  | None => inl (UndefinedTable t)
  | Some tb =>
      if has_column tb (column_name col)
      then inl (DuplicateColumn t (column_name col))
      else
        inr (<[t :=
                 {| columns := columns tb ++ [col];
                    rows := (fun r => <[column_name col := default_datum col]> r)
                              <$> rows tb |}]> db)
  end.

Definition delivery_fee_column : column :=
  {| column_name := "delivery_fee"; data_type := "integer";
     column_default := Some (DInt 0) |}.

Definition total_amount_column : column :=
  {| column_name := "total_amount"; data_type := "integer";
     column_default := Some (DInt 0) |}.

(** [IF NOT EXISTS (...) THEN ALTER TABLE orders ADD COLUMN ...; END IF;] *)
Definition add_unless_listed (guard_table : string) (col : column)
    (db : gmap string table) : SqlError + gmap string table :=
  if column_listed db guard_table (column_name col) then inr db
  else add_column "orders" col db.

(** The block as a whole; an error of either statement aborts it, and
    the database is then left as it was. *)
Definition migrate (db : gmap string table) : SqlError + gmap string table :=
  match add_unless_listed "order_items" delivery_fee_column db with
  | inl e => inl e
  | inr db1 => add_unless_listed "order_items" total_amount_column db1
  end.

End Migration.

(** ** Notions the properties are stated with *)

(** The sum of price times quantity, over the integers. *)
Definition exact_subtotal (its : list OrdersTable.OrderItem) : Z :=
  foldr (fun item acc => OrdersTable.price item * OrdersTable.quantity item + acc)
    0 its.

(** The sum of the magnitudes of the line totals. *)
Definition magnitude (its : list OrdersTable.OrderItem) : Z :=
  foldr
    (fun item acc =>
       Z.abs (OrdersTable.price item * OrdersTable.quantity item) + acc)
    0 its.

(** Every integer up to this magnitude is a [number], and sums and
    products that stay below it are not rounded. *)
Definition exact_range : Z := 2 ^ 53.

Definition int4_item (item : OrdersTable.OrderItem) : Prop :=
  int4 (OrdersTable.price item) /\ int4 (OrdersTable.quantity item).

Definition item (p q : Z) : OrdersTable.OrderItem :=
  {| OrdersTable.product_name := "item";
     OrdersTable.price := p;
     OrdersTable.quantity := q |}.

(** Three rows an [order_items] table can hold. *)
Definition large_order : list OrdersTable.OrderItem :=
  [item 134217728 67108864; item 1 1; item 1 1].

(** The rows the top-level query of [fetchOrders] returns. *)
Definition top_level (store : Db) : list Orders.row :=
  order_created_at_desc (Schema.orders store).

(** The order built from [row] when the item queries marked by [faults]
    fail. *)
Definition joined (faults : Query -> bool) (store : Db) (row : Orders.row)
  : OrdersTable.Order :=
  OrdersTable.with_items row
    (if faults (SelectItems (Orders.id row)) then []
     else OrdersTable.items_of store (Orders.id row)).

(** A completion order in which each of [n] promises settles. *)
Definition completes (schedule : list nat) (n : nat) : Prop :=
  forall i, (i < n)%nat -> i ∈ schedule.

(** [a] is placed before [b] in [l]. *)
Definition before {A} (a b : A) (l : list A) : Prop :=
  (exists i j, (i < j)%nat /\ l !! i = Some a /\ l !! j = Some b) /\
  (forall i j, l !! i = Some a -> l !! j = Some b -> (i < j)%nat).

(** Newest first, on the joined orders. *)
Definition newest_first_order (a b : OrdersTable.Order) : Prop :=
  OrdersTable.created_at b <= OrdersTable.created_at a.

(** *** A sample store *)

Definition order_row (i : string) (t fee total : Z) : Orders.row :=
  {| Orders.id := i;
     Orders.order_token := "token";
     Orders.name := "customer";
     Orders.phone := "0300";
     Orders.email := "customer@example.com";
     Orders.special_instructions := "";
     Orders.payment_proof_url := None;
     Orders.payment_method := "cash";
     Orders.created_at := t;
     Orders.delivery_fee := fee;
     Orders.total_amount := total |}.

Definition item_row (o n : string) (p q : Z) : OrderItems.row :=
  {| OrderItems.order_id := o;
     OrderItems.product_name := n;
     OrderItems.price := p;
     OrderItems.quantity := q |}.

Definition order_A : Orders.row := order_row "A" 2 300 1500.
Definition order_B : Orders.row := order_row "B" 1 0 700.

Definition sample_store : Db :=
  {| Schema.orders := [order_B; order_A];
     Schema.order_items :=
       [item_row "A" "karahi" 500 2; item_row "B" "biryani" 700 1;
        item_row "A" "naan" 200 1];
     Schema.settings := [];
     Schema.clock := "2024-01-01T00:00:00.000Z" |}.

(** The item query of one order fails, every other request is answered. *)
Definition items_fail_for (order_id : string) : Query -> bool :=
  fun q =>
    match q with
    | SelectItems i => bool_decide (i = order_id)
    | _ => false
    end.

(** The top-level query fails. *)
Definition orders_fail : Query -> bool :=
  fun q => match q with SelectOrders => true | _ => false end.

(** The cards the component shows expanded. *)
Definition expanded_cards (st : OrdersTable.State) : list OrdersTable.Card :=
  match OrdersTable.render st with
  | OrdersTable.OrderList cards =>
      filter (fun c => OrdersTable.chevron_up c = true) cards
  | _ => []
  end.

(** An order with the two item lines of the worked example, a delivery
    fee of 300 and a stored total of [total]. *)
Definition example_order (total : Z) : OrdersTable.Order :=
  OrdersTable.with_items (order_row "A" 2 300 total) [item 500 2; item 200 1].

(** The messages the settings page shows after a save. *)
Definition saved_message : Admin.Message :=
  {| Admin.type := Admin.success_type;
     Admin.text := "Resend API key saved successfully!" |}.

Definition save_failed_message : Admin.Message :=
  {| Admin.type := Admin.error_type;
     Admin.text := "Failed to save settings. Please try again." |}.

(** The record [r] after an update to [v] at time [now]. *)
Definition updated (v now : string) (r : Settings.row) : Settings.row :=
  {| Settings.id := Settings.id r;
     Settings.key := Settings.key r;
     Settings.value := v;
     Settings.description := Settings.description r;
     Settings.updated_at := now |}.

(** The records with a key other than [k]. *)
Definition other_records (k : string) (store : Db) : list Settings.row :=
  filter (fun r => Settings.key r <> k) (Schema.settings store).

(** The existence check of a save fails. *)
Definition check_fails : Query -> bool :=
  fun q => match q with SelectSettingId _ => true | _ => false end.

(** The load of the settings fails. *)
Definition load_fails : Query -> bool :=
  fun q => match q with SelectSettingValue _ => true | _ => false end.

Definition setting_row (i : nat) (k v : string) : Settings.row :=
  {| Settings.id := i;
     Settings.key := k;
     Settings.value := v;
     Settings.description := None;
     Settings.updated_at := "2023-12-31T00:00:00.000Z" |}.

(** A store whose settings hold the API key already. *)
Definition configured_store : Db :=
  set_settings sample_store
    [setting_row 1 "theme" "dark"; setting_row 2 "resend_api_key" "re_old"].

(** The page state once a save that started in [st] has reported [m]. *)
Definition after_save (st : Admin.State) (m : Admin.Message) : Admin.State :=
  {| Admin.activeTab := Admin.activeTab st;
     Admin.resendApiKey := Admin.resendApiKey st;
     Admin.showKey := Admin.showKey st;
     Admin.loading := false;
     Admin.message := Some m;
     Admin.fetching := Admin.fetching st |}.

(** Numbers added up from 0, first to last. *)
Definition sum_numbers (l : list number) : number := foldl add (Fin 0) l.

(** An item whose price and quantity are not negative. *)
Definition nonneg_item (i : OrdersTable.OrderItem) : Prop :=
  0 <= OrdersTable.price i /\ 0 <= OrdersTable.quantity i.

(** A number that is neither negative nor [NaN]. *)
Definition nonneg_number (x : number) : Prop :=
  match x with
  | Fin z => 0 <= z
  | PosInf => True
  | _ => False
  end.

(** A request that changes the store. *)
Definition is_write (q : Query) : bool :=
  match q with
  | UpdateSetting _ _ _ | InsertSetting _ _ _ => true
  | _ => false
  end.

(** The requests a fetch sends when its top-level query is answered. *)
Definition fetch_requests (store : Db) : list Query :=
  SelectOrders :: (SelectItems <$> (Orders.id <$> top_level store)).

(** Every update and insert fails on the way; the reads are answered. *)
Definition writes_fail : Query -> bool := is_write.

(** The two requests a save can send after its existence check. *)
Definition update_request (st : Admin.State) (now : string) : Query :=
  UpdateSetting Admin.resend_api_key (Admin.resendApiKey st) now.

Definition insert_request (st : Admin.State) : Query :=
  InsertSetting Admin.resend_api_key (Admin.resendApiKey st)
    Admin.static_description.

(** *** A sample catalog *)

Definition text_column (n : string) : Migration.column :=
  {| Migration.column_name := n; Migration.data_type := "text";
     Migration.column_default := None |}.

(** [orders] before the migration, with one order placed. *)
Definition orders_before : Migration.table :=
  {| Migration.columns := [text_column "id"; text_column "name"];
     Migration.rows :=
       [<["id" := Migration.DText "A"]>
          (<["name" := Migration.DText "customer"]> ∅)] |}.

Definition order_items_table : Migration.table :=
  {| Migration.columns := [text_column "order_id"; text_column "product_name"];
     Migration.rows := [] |}.

Definition catalog_before : gmap string Migration.table :=
  <["orders" := orders_before]> (<["order_items" := order_items_table]> ∅).

(** What the migration does to a row of [orders]. *)
Definition with_fee_and_total (r : gmap string Migration.datum)
  : gmap string Migration.datum :=
  <["total_amount" := Migration.DInt 0]>
    (<["delivery_fee" := Migration.DInt 0]> r).

(** A catalog in which [order_items], not [orders], has the two columns. *)
Definition catalog_guarded : gmap string Migration.table :=
  <["orders" := orders_before]>
    (<["order_items" :=
         {| Migration.columns :=
              [text_column "order_id"; Migration.delivery_fee_column;
               Migration.total_amount_column];
            Migration.rows := [] |}]> ∅).

(** ** Arithmetic of [number] *)
Section NumberFacts.

Lemma round_magnitude_small a :
  0 <= a < 2 ^ 53 -> round_magnitude a = a.
Proof.
  intros [Ha Hlt]. unfold round_magnitude, precision.
  destruct (Z.eq_dec a 0) as [->|Hne]; [reflexivity|].
  assert (Z.log2 a < 53) by (apply Z.log2_lt_pow2; lia).
  destruct (Z.leb_spec (Z.log2 a + 1) 53); [reflexivity|lia].
Qed.

Lemma fl_exact z : Z.abs z <= exact_range -> fl z = Fin z.
Proof.
  unfold exact_range. intros Hz.
  assert (Hcase : Z.abs z < 2 ^ 53 \/ Z.abs z = 2 ^ 53) by lia.
  unfold fl. destruct Hcase as [Hlt|Heq].
  - rewrite round_magnitude_small by lia.
    assert (Z.abs z < overflow).
    { unfold overflow. eapply Z.lt_trans; [exact Hlt|].
      apply Z.pow_lt_mono_r; lia. }
    destruct (Z.leb_spec overflow (Z.abs z)); [lia|].
    f_equal. lia.
  - rewrite Heq.
    change (round_magnitude (2 ^ 53)) with (2 ^ 53).
    change (overflow <=? 2 ^ 53) with false. cbv iota.
    f_equal. lia.
Qed.

Lemma magnitude_nonneg its : 0 <= magnitude its.
Proof. induction its as [|i its IH]; simpl; lia. Qed.

Lemma exact_subtotal_app l1 l2 :
  exact_subtotal (l1 ++ l2) = exact_subtotal l1 + exact_subtotal l2.
Proof. induction l1 as [|i l1 IH]; simpl; lia. Qed.

Lemma magnitude_app l1 l2 : magnitude (l1 ++ l2) = magnitude l1 + magnitude l2.
Proof. induction l1 as [|i l1 IH]; simpl; lia. Qed.

Lemma exact_subtotal_reverse its :
  exact_subtotal (reverse its) = exact_subtotal its.
Proof.
  induction its as [|i its IH]; [reflexivity|].
  rewrite reverse_cons, exact_subtotal_app, IH. simpl. lia.
Qed.

Lemma magnitude_reverse its : magnitude (reverse its) = magnitude its.
Proof.
  induction its as [|i its IH]; [reflexivity|].
  rewrite reverse_cons, magnitude_app, IH. simpl. lia.
Qed.

(** The running sum of the [reduce], from any accumulator. *)
Lemma reduce_exact its : forall acc,
  Z.abs acc + magnitude its <= exact_range ->
  foldl
    (fun sum item =>
       add sum (mul (Fin (OrdersTable.price item))
                    (Fin (OrdersTable.quantity item))))
    (Fin acc) its
  = Fin (acc + exact_subtotal its).
Proof.
  induction its as [|i its IH]; intros acc Hacc;
    cbn [foldl foldr magnitude exact_subtotal] in *.
  - f_equal. lia.
  - pose proof (magnitude_nonneg its) as Hm.
    fold (magnitude its) in Hacc. fold (exact_subtotal its).
    set (p := OrdersTable.price i * OrdersTable.quantity i) in *.
    change (mul (Fin (OrdersTable.price i)) (Fin (OrdersTable.quantity i)))
      with (fl p).
    rewrite (fl_exact p) by lia.
    change (add (Fin acc) (Fin p)) with (fl (acc + p)).
    rewrite (fl_exact (acc + p)) by lia.
    rewrite IH by lia. f_equal. lia.
Qed.

Lemma calculateSubtotal_in_range its :
  magnitude its <= exact_range ->
  OrdersTable.calculateSubtotal its = Fin (exact_subtotal its).
Proof.
  intros H. unfold OrdersTable.calculateSubtotal.
  rewrite reduce_exact by (simpl; lia). reflexivity.
Qed.

End NumberFacts.

(** ** The subtotal *)

(** C3, as stated, fails: on [large_order], three rows of 32-bit
    integers, the sum of the line totals is 2^53 + 2 and
    [calculateSubtotal] returns 2^53. *)
Lemma calculateSubtotal_rounds :
  Forall int4_item large_order /\
  exact_subtotal large_order = 9007199254740994 /\
  OrdersTable.calculateSubtotal large_order = Fin 9007199254740992 /\
  OrdersTable.calculateSubtotal large_order <> Fin (exact_subtotal large_order).
Proof.
  split; [|split; [|split]].
  - repeat constructor; vm_compute; congruence.
  - reflexivity.
  - vm_compute. reflexivity.
  - vm_compute. congruence.
Qed.

(** C3 (amended): for every list of order items whose line totals stay
    within the exact range of [number] (their magnitudes sum to at most
    2^53), [calculateSubtotal] returns the sum over all items of price
    times quantity; for the empty list it returns 0. *)
Theorem calculateSubtotal_sum (its : list OrdersTable.OrderItem) :
  magnitude its <= exact_range ->
  OrdersTable.calculateSubtotal its = Fin (exact_subtotal its) /\
  OrdersTable.calculateSubtotal [] = Fin 0.
Proof.
  intros H. split; [apply calculateSubtotal_in_range, H|reflexivity].
Qed.

Lemma calculateSubtotal_sum_witness :
  magnitude [item 500 2; item 200 1] <= exact_range /\
  OrdersTable.calculateSubtotal [item 500 2; item 200 1] = Fin 1200.
Proof.
  split; [vm_compute; congruence|].
  apply (calculateSubtotal_sum [item 500 2; item 200 1]).
  vm_compute; congruence.
Defined.

(** C9, as stated, fails: [large_order] sums to 2^53 in the order given
    and to 2^53 + 2 in reverse. *)
Lemma calculateSubtotal_order_dependent :
  Forall int4_item large_order /\
  OrdersTable.calculateSubtotal large_order = Fin 9007199254740992 /\
  OrdersTable.calculateSubtotal (reverse large_order) = Fin 9007199254740994 /\
  OrdersTable.calculateSubtotal large_order
    <> OrdersTable.calculateSubtotal (reverse large_order).
Proof.
  split; [|split; [|split]].
  - repeat constructor; vm_compute; congruence.
  - vm_compute. reflexivity.
  - vm_compute. reflexivity.
  - vm_compute. congruence.
Qed.

(** C9 (amended): for every list of order items [L] whose line totals
    stay within the exact range of [number],
    [calculateSubtotal L = calculateSubtotal (reverse L)]. *)
Theorem calculateSubtotal_reverse (L : list OrdersTable.OrderItem) :
  magnitude L <= exact_range ->
  OrdersTable.calculateSubtotal L = OrdersTable.calculateSubtotal (reverse L).
Proof.
  intros H.
  rewrite (calculateSubtotal_in_range L) by exact H.
  rewrite (calculateSubtotal_in_range (reverse L))
    by (rewrite magnitude_reverse; exact H).
  rewrite exact_subtotal_reverse. reflexivity.
Qed.

Lemma calculateSubtotal_reverse_witness :
  magnitude [item 500 2; item 200 1] <= exact_range /\
  OrdersTable.calculateSubtotal [item 500 2; item 200 1]
  = OrdersTable.calculateSubtotal (reverse [item 500 2; item 200 1]).
Proof.
  split; [vm_compute; congruence|].
  apply (calculateSubtotal_reverse [item 500 2; item 200 1]).
  vm_compute; congruence.
Defined.

(** ** [Promise.all] *)
Section PromiseAll.
Context {C A : Type}.

Lemma settle_all_fulfilled (vals : list A) (schedule : list nat) :
  forall slots : list (option A),
    length slots = length vals ->
    (forall i v, slots !! i = Some (Some v) -> vals !! i = Some v) ->
    (forall i, (i < length vals)%nat ->
               i ∈ schedule \/ exists v, slots !! i = Some (Some v)) ->
    settle_all (Returned <$> vals) schedule slots = Returned vals.
Proof.
  induction schedule as [|i rest IH]; intros slots Hlen Hok Hcov;
    cbn [settle_all].
  - assert (Hslots : slots = Some <$> vals).
    { apply list_eq. intros i. rewrite list_lookup_fmap.
      destruct (decide (i < length vals)%nat) as [Hi|Hi].
      - destruct (Hcov i Hi) as [Hin|[v Hv]]; [inversion Hin|].
        rewrite Hv, (Hok _ _ Hv). reflexivity.
      - rewrite !lookup_ge_None_2 by lia. reflexivity. }
    subst slots.
    rewrite (mapM_fmap_Some (fun slot : option A => slot) Some) by done.
    reflexivity.
  - rewrite list_lookup_fmap.
    destruct (vals !! i) as [v|] eqn:Hv; cbn [fmap option_fmap option_map].
    + pose proof (lookup_lt_Some _ _ _ Hv) as Hi.
      apply IH.
      * rewrite length_insert. exact Hlen.
      * intros j u Hj.
        destruct (decide (i = j)) as [->|Hne].
        -- rewrite list_lookup_insert_eq in Hj by lia. congruence.
        -- rewrite list_lookup_insert_ne in Hj by done. eauto.
      * intros j Hj.
        destruct (decide (i = j)) as [->|Hne].
        -- right. exists v. apply list_lookup_insert_eq. lia.
        -- destruct (Hcov j Hj) as [Hin|[u Hu]].
           ++ left. apply elem_of_cons in Hin as [->|Hin]; [done|exact Hin].
           ++ right. exists u. rewrite list_lookup_insert_ne by done. exact Hu.
    + apply IH; [exact Hlen|exact Hok|].
      intros j Hj.
      assert (i <> j) by (intros ->; apply lookup_ge_None_1 in Hv; lia).
      destruct (Hcov j Hj) as [Hin|Hu]; [|right; exact Hu].
      left. apply elem_of_cons in Hin as [->|Hin]; [done|exact Hin].
Qed.

Lemma settle_all_complete (vals : list A) (schedule : list nat) :
  completes schedule (length vals) ->
  settle_all (Returned <$> vals) schedule (replicate (length vals) None)
  = Returned vals.
Proof.
  intros Hc. apply settle_all_fulfilled.
  - apply length_replicate.
  - intros i v Hi. apply lookup_replicate in Hi as [? _]. discriminate.
  - intros i Hi. left. apply Hc, Hi.
Qed.

(** A promise that never settles keeps the whole pending. *)
Lemma settle_all_pending (vals : list A) (schedule : list nat) (k : nat) :
  (k < length vals)%nat -> k ∉ schedule ->
  forall slots : list (option A),
    length slots = length vals -> slots !! k = Some None ->
    settle_all (Returned <$> vals) schedule slots = Pending.
Proof.
  intros Hk. induction schedule as [|i rest IH]; intros Hnot slots Hlen Hs;
    cbn [settle_all].
  - destruct (mapM _ slots) as [vs|] eqn:Hm; [|reflexivity].
    apply mapM_Some_1 in Hm.
    destruct (Forall2_lookup_l _ _ _ _ _ Hm Hs) as (? & _ & ?). discriminate.
  - apply not_elem_of_cons in Hnot as [Hne Hnot].
    rewrite list_lookup_fmap.
    destruct (vals !! i) as [v|]; cbn [fmap option_fmap option_map].
    + apply IH; [exact Hnot|by rewrite length_insert|].
      rewrite list_lookup_insert_ne by done. exact Hs.
    + apply IH; assumption.
Qed.

End PromiseAll.

(** ** Fetching the orders *)
Section FetchOrders.
Variable faults : Query -> bool.
Variable store : Db.

Lemma join_items_run (row : Orders.row) (w : World OrdersTable.State) :
  fault w = faults -> db w = store ->
  OrdersTable.join_items row w
  = (Returned (joined faults store row),
     {| component := component w; db := db w; fault := fault w;
        issued := issued w ++ [SelectItems (Orders.id row)];
        console := console w |}).
Proof.
  intros Hf Hd.
  unfold OrdersTable.join_items, OrdersTable.select_items, bind, request,
    joined.
  rewrite Hf, Hd. destruct (faults _); reflexivity.
Qed.

Lemma start_all_join (rows : list Orders.row) :
  forall w : World OrdersTable.State,
    fault w = faults -> db w = store ->
    start_all (OrdersTable.join_items <$> rows) w
    = (Returned <$> (joined faults store <$> rows),
       {| component := component w; db := db w; fault := fault w;
          issued := issued w ++ (SelectItems <$> (Orders.id <$> rows));
          console := console w |}).
Proof.
  induction rows as [|row rows IH]; intros w Hf Hd.
  - cbn. rewrite app_nil_r. destruct w; reflexivity.
  - cbn [fmap list_fmap start_all].
    rewrite (join_items_run row w Hf Hd).
    rewrite IH by assumption. cbn.
    rewrite <- app_assoc. reflexivity.
Qed.

(** What a fetch does when the top-level query is answered. *)
Lemma fetchOrders_answered (st : OrdersTable.State) (schedule : list nat) :
  faults SelectOrders = false ->
  completes schedule (length (Schema.orders store)) ->
  OrdersTable.run (OrdersTable.fetchOrders schedule) faults st store
  = (Returned tt,
     {| component :=
          {| OrdersTable.orders := joined faults store <$> top_level store;
             OrdersTable.loading := false;
             OrdersTable.error := None;
             OrdersTable.expandedOrderId := OrdersTable.expandedOrderId st |};
        db := store;
        fault := faults;
        issued :=
          SelectOrders :: (SelectItems <$> (Orders.id <$> top_level store));
        console := [] |}).
Proof.
  intros Hq Hs.
  unfold OrdersTable.run, OrdersTable.fetchOrders, try_finally, try_catch,
    bind, setState, OrdersTable.select_orders, request.
  cbn. rewrite Hq. cbn.
  unfold promise_all. fold (top_level store).
  rewrite start_all_join by reflexivity. cbn.
  rewrite !length_fmap.
  rewrite <- (length_fmap (joined faults store) (top_level store)).
  rewrite settle_all_complete. 
  - reflexivity.
  - rewrite length_fmap. unfold top_level, order_created_at_desc.
    rewrite merge_sort_Permutation. exact Hs.
Qed.

(** What a fetch does when the top-level query fails. *)
Lemma fetchOrders_unanswered (st : OrdersTable.State) (schedule : list nat) :
  faults SelectOrders = true ->
  OrdersTable.run (OrdersTable.fetchOrders schedule) faults st store
  = (Returned tt,
     {| component :=
          {| OrdersTable.orders := OrdersTable.orders st;
             OrdersTable.loading := false;
             OrdersTable.error := Some "Failed to fetch orders";
             OrdersTable.expandedOrderId := OrdersTable.expandedOrderId st |};
        db := store;
        fault := faults;
        issued := [SelectOrders];
        console := [] |}).
Proof.
  intros Hq.
  unfold OrdersTable.run, OrdersTable.fetchOrders, try_finally, try_catch,
    bind, setState, OrdersTable.select_orders, request.
  cbn. rewrite Hq. reflexivity.
Qed.

End FetchOrders.

(** ** The order of the result *)
Section Ordering.

Global Instance newest_first_trans : Transitive newest_first.
Proof. unfold newest_first. intros a b c. lia. Qed.

Global Instance newest_first_total : Total newest_first.
Proof. unfold newest_first. intros a b. lia. Qed.

Lemma top_level_sorted store : StronglySorted newest_first (top_level store).
Proof. apply StronglySorted_merge_sort; apply _. Qed.

Lemma top_level_perm store : top_level store ≡ₚ Schema.orders store.
Proof. apply merge_sort_Permutation. Qed.

Lemma sorted_lookup {A} (R : relation A) (l : list A) :
  StronglySorted R l ->
  forall i j x y,
    l !! i = Some x -> l !! j = Some y -> (i < j)%nat -> R x y.
Proof.
  induction 1 as [|a l Hs IH Hall]; intros i j x y Hi Hj Hlt.
  - discriminate.
  - destruct j as [|j]; [lia|]. destruct i as [|i]; cbn in Hi, Hj.
    + injection Hi as <-.
      rewrite Forall_forall in Hall.
      apply Hall. eapply list_elem_of_lookup_2, Hj.
    + eapply IH; eauto. lia.
Qed.

Lemma joined_created_at faults store row :
  OrdersTable.created_at (joined faults store row) = Orders.created_at row.
Proof. reflexivity. Qed.

Lemma joined_sorted faults store :
  StronglySorted newest_first_order (joined faults store <$> top_level store).
Proof.
  apply (StronglySorted_fmap _ newest_first); [|apply top_level_sorted].
  intros x y Hxy. exact Hxy.
Qed.

Lemma joined_before faults store (a b : Orders.row) :
  a ∈ Schema.orders store -> b ∈ Schema.orders store ->
  Orders.created_at b < Orders.created_at a ->
  before (joined faults store a) (joined faults store b)
    (joined faults store <$> top_level store).
Proof.
  intros Ha Hb Hlt.
  pose proof (top_level_sorted store) as Hs.
  assert (Horder : forall i j x y,
             top_level store !! i = Some x -> top_level store !! j = Some y ->
             Orders.created_at y < Orders.created_at x -> (i < j)%nat).
  { intros i j x y Hi Hj Hxy.
    destruct (lt_eq_lt_dec i j) as [[?| ->]|Hji]; [assumption| |].
    - rewrite Hi in Hj. injection Hj as ->. lia.
    - pose proof (sorted_lookup _ _ Hs _ _ _ _ Hj Hi Hji) as Hr.
      unfold newest_first in Hr. lia. }
  split.
  - rewrite <- top_level_perm in Ha, Hb.
    apply list_elem_of_lookup_1 in Ha as [i Hi], Hb as [j Hj].
    exists i, j. rewrite !list_lookup_fmap, Hi, Hj.
    split; [eapply Horder; eauto|split; reflexivity].
  - intros i j Hi Hj.
    apply list_lookup_fmap_Some_1 in Hi as (x & Hx & Hi).
    apply list_lookup_fmap_Some_1 in Hj as (y & Hy & Hj).
    apply (Horder i j x y Hi Hj).
    rewrite <- (joined_created_at faults store x), <- Hx.
    rewrite <- (joined_created_at faults store y), <- Hy.
    rewrite !joined_created_at. exact Hlt.
Qed.

Lemma permutation_completes schedule n :
  schedule ≡ₚ seq 0 n -> completes schedule n.
Proof.
  intros Hp i Hi. rewrite Hp. apply elem_of_seq. lia.
Qed.

End Ordering.

(** ** Properties of [fetchOrders] *)

(** C1: when the item query of one order fails while the top-level query
    and the other item queries are answered, the fetch completes without
    an error state, the orders it stores are, one for one and in the same
    order, the rows of the top-level query, the order whose item query
    failed carries an empty item list, and every other order carries its
    items. *)
Theorem fetchOrders_item_failure_isolated
    (faults : Query -> bool) (store : Db) (st : OrdersTable.State)
    (schedule : list nat) (failed : string) :
  faults SelectOrders = false ->
  faults (SelectItems failed) = true ->
  (forall i, i <> failed -> faults (SelectItems i) = false) ->
  schedule ≡ₚ seq 0 (length (Schema.orders store)) ->
  exists w,
    OrdersTable.run (OrdersTable.fetchOrders schedule) faults st store
    = (Returned tt, w) /\
    OrdersTable.error (component w) = None /\
    Forall2 (fun row o => exists its, o = OrdersTable.with_items row its)
      (top_level store) (OrdersTable.orders (component w)) /\
    (forall o, o ∈ OrdersTable.orders (component w) ->
               OrdersTable.id o = failed -> OrdersTable.items o = []) /\
    (forall o, o ∈ OrdersTable.orders (component w) ->
               OrdersTable.id o <> failed ->
               OrdersTable.items o
               = OrdersTable.items_of store (OrdersTable.id o)).
Proof.
  intros Hq Hfail Hothers Hp.
  eexists. split.
  { apply fetchOrders_answered; [exact Hq|].
    apply permutation_completes, Hp. }
  cbn [component OrdersTable.error OrdersTable.orders].
  split; [reflexivity|]. split; [|split].
  - apply Forall2_fmap_r, Forall_Forall2_diag, Forall_forall.
    intros row _. eexists. reflexivity.
  - intros o Ho Hid.
    apply list_elem_of_fmap_1 in Ho as (row & -> & _).
    unfold joined in *. cbn in Hid. rewrite Hid, Hfail. reflexivity.
  - intros o Ho Hid.
    apply list_elem_of_fmap_1 in Ho as (row & -> & _).
    unfold joined in *. cbn in Hid. rewrite (Hothers _ Hid). reflexivity.
Qed.

Lemma fetchOrders_item_failure_isolated_witness :
  (items_fail_for "A" SelectOrders = false /\
   items_fail_for "A" (SelectItems "A") = true /\
   (forall i, i <> "A" -> items_fail_for "A" (SelectItems i) = false) /\
   [1%nat; 0%nat] ≡ₚ seq 0 (length (Schema.orders sample_store))) /\
  exists w,
    OrdersTable.run (OrdersTable.fetchOrders [1%nat; 0%nat])
      (items_fail_for "A") OrdersTable.initial sample_store
    = (Returned tt, w) /\
    OrdersTable.error (component w) = None /\
    Forall2 (fun row o => exists its, o = OrdersTable.with_items row its)
      (top_level sample_store) (OrdersTable.orders (component w)) /\
    (forall o, o ∈ OrdersTable.orders (component w) ->
               OrdersTable.id o = "A" -> OrdersTable.items o = []) /\
    (forall o, o ∈ OrdersTable.orders (component w) ->
               OrdersTable.id o <> "A" ->
               OrdersTable.items o
               = OrdersTable.items_of sample_store (OrdersTable.id o)).
Proof.
  assert (H3 : forall i, i <> "A" -> items_fail_for "A" (SelectItems i) = false).
  { intros i Hi. apply bool_decide_eq_false. exact Hi. }
  assert (H4 : [1%nat; 0%nat] ≡ₚ seq 0 (length (Schema.orders sample_store))).
  { apply Permutation_swap. }
  split; [repeat split; [exact H3|exact H4]|].
  apply (fetchOrders_item_failure_isolated (items_fail_for "A") sample_store
           OrdersTable.initial [1%nat; 0%nat] "A");
    [reflexivity|reflexivity|exact H3|exact H4].
Defined.

(** C2: the orders a fetch stores are sorted by creation time, newest
    first: of two orders A, created at T2, and B, created at T1 < T2, A
    is placed before B.  The joined sequence is, row for row, the
    sequence of the top-level query with the items attached, whatever the
    order in which the item queries complete. *)
Theorem fetchOrders_newest_first
    (faults : Query -> bool) (store : Db) (st : OrdersTable.State)
    (schedule : list nat) (A B : Orders.row) :
  faults SelectOrders = false ->
  schedule ≡ₚ seq 0 (length (Schema.orders store)) ->
  A ∈ Schema.orders store ->
  B ∈ Schema.orders store ->
  Orders.created_at B < Orders.created_at A ->
  exists w,
    OrdersTable.run (OrdersTable.fetchOrders schedule) faults st store
    = (Returned tt, w) /\
    StronglySorted newest_first_order (OrdersTable.orders (component w)) /\
    (exists i j itsA itsB,
       (i < j)%nat /\
       OrdersTable.orders (component w) !! i
       = Some (OrdersTable.with_items A itsA) /\
       OrdersTable.orders (component w) !! j
       = Some (OrdersTable.with_items B itsB)) /\
    (forall i j a b,
       OrdersTable.orders (component w) !! i = Some a ->
       OrdersTable.orders (component w) !! j = Some b ->
       OrdersTable.created_at b < OrdersTable.created_at a ->
       (i < j)%nat) /\
    Forall2 (fun row o => exists its, o = OrdersTable.with_items row its)
      (top_level store) (OrdersTable.orders (component w)) /\
    StronglySorted newest_first (top_level store) /\
    top_level store ≡ₚ Schema.orders store.
Proof.
  intros Hq Hp HA HB Hlt.
  eexists. split.
  { apply fetchOrders_answered; [exact Hq|].
    apply permutation_completes, Hp. }
  cbn [component OrdersTable.orders].
  split; [apply joined_sorted|].
  split; [|split; [|split; [|split]]].
  - destruct (joined_before faults store A B HA HB Hlt)
      as [(i & j & Hij & Hi & Hj) _].
    exists i, j. do 2 eexists. split; [exact Hij|].
    split; [exact Hi|exact Hj].
  - intros i j a b Hi Hj Hab.
    destruct (lt_eq_lt_dec i j) as [[?| ->]|Hji]; [assumption| |].
    + rewrite Hi in Hj. injection Hj as ->. lia.
    + pose proof (sorted_lookup _ _ (joined_sorted faults store)
                    _ _ _ _ Hj Hi Hji) as Hr.
      unfold newest_first_order in Hr. lia.
  - apply Forall2_fmap_r, Forall_Forall2_diag, Forall_forall.
    intros row _. eexists. reflexivity.
  - apply top_level_sorted.
  - apply top_level_perm.
Qed.

Lemma fetchOrders_newest_first_witness :
  (no_faults SelectOrders = false /\
   [1%nat; 0%nat] ≡ₚ seq 0 (length (Schema.orders sample_store)) /\
   order_A ∈ Schema.orders sample_store /\
   order_B ∈ Schema.orders sample_store /\
   Orders.created_at order_B < Orders.created_at order_A) /\
  exists w,
    OrdersTable.run (OrdersTable.fetchOrders [1%nat; 0%nat])
      no_faults OrdersTable.initial sample_store
    = (Returned tt, w) /\
    StronglySorted newest_first_order (OrdersTable.orders (component w)) /\
    (exists i j itsA itsB,
       (i < j)%nat /\
       OrdersTable.orders (component w) !! i
       = Some (OrdersTable.with_items order_A itsA) /\
       OrdersTable.orders (component w) !! j
       = Some (OrdersTable.with_items order_B itsB)) /\
    (forall i j a b,
       OrdersTable.orders (component w) !! i = Some a ->
       OrdersTable.orders (component w) !! j = Some b ->
       OrdersTable.created_at b < OrdersTable.created_at a ->
       (i < j)%nat) /\
    Forall2 (fun row o => exists its, o = OrdersTable.with_items row its)
      (top_level sample_store) (OrdersTable.orders (component w)) /\
    StronglySorted newest_first (top_level sample_store) /\
    top_level sample_store ≡ₚ Schema.orders sample_store.
Proof.
  assert (H2 : [1%nat; 0%nat] ≡ₚ seq 0 (length (Schema.orders sample_store))).
  { apply Permutation_swap. }
  assert (HA : order_A ∈ Schema.orders sample_store).
  { apply elem_of_cons. right. apply elem_of_cons. left. reflexivity. }
  assert (HB : order_B ∈ Schema.orders sample_store).
  { apply elem_of_cons. left. reflexivity. }
  assert (Hlt : Orders.created_at order_B < Orders.created_at order_A).
  { vm_compute. reflexivity. }
  split; [repeat split; assumption|].
  apply (fetchOrders_newest_first no_faults sample_store
           OrdersTable.initial [1%nat; 0%nat] order_A order_B);
    [reflexivity|exact H2|exact HA|exact HB|exact Hlt].
Defined.

(** C5: when the top-level query fails, the fetch stops there: only that
    one request was sent (no item query), the error state is set and is
    what the component renders, and the stored orders are left as they
    were, so that nothing of the batch is produced or shown. *)
Theorem fetchOrders_orders_unavailable
    (faults : Query -> bool) (store : Db) (st : OrdersTable.State)
    (schedule : list nat) :
  faults SelectOrders = true ->
  exists w,
    OrdersTable.run (OrdersTable.fetchOrders schedule) faults st store
    = (Returned tt, w) /\
    OrdersTable.error (component w) = Some "Failed to fetch orders" /\
    OrdersTable.render (component w) = OrdersTable.ErrorBox "Failed to fetch orders" /\
    issued w = [SelectOrders] /\
    OrdersTable.orders (component w) = OrdersTable.orders st /\
    db w = store.
Proof.
  intros Hq. eexists. split; [apply fetchOrders_unanswered, Hq|].
  repeat split.
Qed.

Lemma fetchOrders_orders_unavailable_witness :
  orders_fail SelectOrders = true /\
  exists w,
    OrdersTable.run (OrdersTable.fetchOrders [])
      orders_fail OrdersTable.initial sample_store
    = (Returned tt, w) /\
    OrdersTable.error (component w) = Some "Failed to fetch orders" /\
    OrdersTable.render (component w) = OrdersTable.ErrorBox "Failed to fetch orders" /\
    issued w = [SelectOrders] /\
    OrdersTable.orders (component w) = OrdersTable.orders OrdersTable.initial /\
    db w = sample_store.
Proof.
  split; [reflexivity|].
  apply (fetchOrders_orders_unavailable orders_fail sample_store
           OrdersTable.initial []).
  reflexivity.
Defined.

(** ** Expanding and collapsing a row *)
Section Expansion.
Import OrdersTable.

Lemma is_expanded_iff st o : is_expanded st o = true <-> expandedOrderId st = Some o.
Proof. unfold is_expanded. apply bool_decide_eq_true. Qed.

Lemma is_expanded_onClick st x o :
  is_expanded (onClick x st) o = true <->
  o = x /\ is_expanded st x = false.
Proof.
  rewrite is_expanded_iff. unfold onClick. cbn.
  destruct (is_expanded st x); split.
  - discriminate.
  - intros [_ ?]. discriminate.
  - intros [= ->]. auto.
  - intros [-> _]. reflexivity.
Qed.

Lemma chevrons_of_others st (os : list Order) e :
  expandedOrderId st = Some e -> e ∉ id <$> os ->
  filter (fun c => chevron_up c = true) (render_card st <$> os) = [].
Proof.
  intros He. induction os as [|o os IH]; intros Hnot; [reflexivity|].
  apply not_elem_of_cons in Hnot as [Hne Hnot]. cbn [fmap list_fmap].
  rewrite filter_cons_False; [apply IH, Hnot|].
  cbn. rewrite is_expanded_iff, He. congruence.
Qed.

Lemma chevrons_at_most_one st (os : list Order) :
  NoDup (id <$> os) ->
  (length (filter (fun c => chevron_up c = true) (render_card st <$> os)) <= 1)%nat.
Proof.
  induction os as [|o os IH]; intros Hnd; [cbn; lia|].
  apply NoDup_cons in Hnd as [Hnot Hnd]. cbn [fmap list_fmap].
  destruct (is_expanded st (id o)) eqn:He.
  - rewrite filter_cons_True by exact He.
    apply is_expanded_iff in He.
    rewrite (chevrons_of_others st os (id o) He Hnot). cbn. lia.
  - rewrite filter_cons_False by (cbn; congruence). apply IH, Hnd.
Qed.

End Expansion.

(** C6: no order is expanded initially; in every state, reachable ones
    included, at most one order is expanded (at most one card when the
    order ids are distinct); clicking X and then another order Y leaves
    exactly Y expanded; clicking the expanded order collapses it; every
    click changes the state and can be undone by one more click, so no
    state is terminal. *)
Theorem expand_collapse_single
    (history : list string) (st : OrdersTable.State) (X Y : string) :
  (forall o, OrdersTable.is_expanded OrdersTable.initial o = false) /\
  (forall a b,
     OrdersTable.is_expanded (OrdersTable.clicks history OrdersTable.initial) a = true ->
     OrdersTable.is_expanded (OrdersTable.clicks history OrdersTable.initial) b = true ->
     a = b) /\
  (forall a b,
     OrdersTable.is_expanded st a = true ->
     OrdersTable.is_expanded st b = true -> a = b) /\
  (NoDup (OrdersTable.id <$> OrdersTable.orders st) ->
   (length (expanded_cards st) <= 1)%nat) /\
  (X <> Y ->
   forall o,
     OrdersTable.is_expanded (OrdersTable.onClick Y (OrdersTable.onClick X st)) o = true
     <-> o = Y) /\
  (OrdersTable.is_expanded st X = true ->
   forall o, OrdersTable.is_expanded (OrdersTable.onClick X st) o = false) /\
  OrdersTable.onClick X st <> st /\
  (exists Z, OrdersTable.onClick Z (OrdersTable.onClick X st) = st).
Proof.
  assert (Hone : forall s a b,
             OrdersTable.is_expanded s a = true ->
             OrdersTable.is_expanded s b = true -> a = b).
  { intros s a b Ha Hb. apply is_expanded_iff in Ha, Hb. congruence. }
  split; [reflexivity|]. split; [apply Hone|]. split; [apply Hone|].
  split; [|split; [|split; [|split]]].
  - intros Hnd. unfold expanded_cards, OrdersTable.render.
    destruct (OrdersTable.loading st); [cbn; lia|].
    destruct (OrdersTable.error st ≫= OrdersTable.truthy); [cbn; lia|].
    destruct (OrdersTable.orders st) eqn:Hos; [cbn; lia|].
    rewrite <- Hos in *. apply chevrons_at_most_one, Hnd.
  - intros Hne o. rewrite is_expanded_onClick. split.
    + intros [-> _]. reflexivity.
    + intros ->. split; [reflexivity|].
      apply not_true_is_false. rewrite is_expanded_onClick.
      intros [Heq _]. congruence.
  - intros He o. apply not_true_is_false. rewrite is_expanded_onClick.
    intros [_ Hf]. congruence.
  - unfold OrdersTable.onClick. intros Heq.
    apply (f_equal OrdersTable.expandedOrderId) in Heq. cbn in Heq.
    destruct (OrdersTable.is_expanded st X) eqn:He.
    + apply is_expanded_iff in He. congruence.
    + apply not_true_iff_false in He. rewrite is_expanded_iff in He. congruence.
  - unfold OrdersTable.onClick, OrdersTable.is_expanded,
      OrdersTable.setExpandedOrderId.
    destruct st as [os l e [z|]]; cbn.
    + destruct (decide (z = X)) as [->|Hne]; [exists X|exists z];
        repeat (case_bool_decide; cbn); congruence.
    + exists X. repeat (case_bool_decide; cbn); congruence.
Qed.

Lemma expand_collapse_single_witness :
  "A" <> "B" /\
  forall o,
    OrdersTable.is_expanded
      (OrdersTable.onClick "B" (OrdersTable.onClick "A" OrdersTable.initial)) o
    = true <-> o = "B".
Proof.
  split; [discriminate|].
  apply (expand_collapse_single ["A"] OrdersTable.initial "A" "B").
  discriminate.
Defined.

(** ** What is displayed for an order *)

(** C7: the total displayed for an order, in the header of its card and
    in the summary, is the stored [total_amount] as it is; the subtotal
    displayed next to it is recomputed from the items.  With items
    (500, 2) and (200, 1) and a delivery fee of 300 the subtotal shown is
    1200 and the total shown is the stored one, whatever it is. *)
Theorem displayed_total_is_stored
    (st : OrdersTable.State) (order : OrdersTable.Order) :
  OrdersTable.header_total (OrdersTable.render_card st order)
  = OrdersTable.total_amount order /\
  (forall d,
     OrdersTable.details (OrdersTable.render_card st order) = Some d ->
     OrdersTable.shown_total d = OrdersTable.total_amount order /\
     OrdersTable.shown_subtotal d
     = OrdersTable.calculateSubtotal (OrdersTable.items order)) /\
  ((fun i => (OrdersTable.price i, OrdersTable.quantity i))
     <$> OrdersTable.items order = [(500, 2); (200, 1)] ->
   OrdersTable.delivery_fee order = 300 ->
   OrdersTable.is_expanded st (OrdersTable.id order) = true ->
   exists d,
     OrdersTable.details (OrdersTable.render_card st order) = Some d /\
     OrdersTable.shown_subtotal d = Fin 1200 /\
     OrdersTable.shown_delivery_fee d = Some 300 /\
     OrdersTable.shown_total d = OrdersTable.total_amount order).
Proof.
  split; [reflexivity|]. split.
  - intros d. cbn. destruct (OrdersTable.is_expanded _ _); [|discriminate].
    intros [= <-]. split; reflexivity.
  - intros Hits Hfee He. eexists. cbn. rewrite He.
    split; [reflexivity|]. cbn. rewrite Hfee.
    split; [|split; reflexivity].
    destruct (OrdersTable.items order) as [|[n1 p1 q1] [|[n2 p2 q2] [|? ?]]];
      try discriminate.
    cbn in Hits. injection Hits as -> -> -> ->.
    vm_compute. reflexivity.
Qed.

Lemma displayed_total_is_stored_witness :
  ((fun i => (OrdersTable.price i, OrdersTable.quantity i))
     <$> OrdersTable.items (example_order 9999) = [(500, 2); (200, 1)] /\
   OrdersTable.delivery_fee (example_order 9999) = 300 /\
   OrdersTable.is_expanded (OrdersTable.onClick "A" OrdersTable.initial)
     (OrdersTable.id (example_order 9999)) = true) /\
  exists d,
    OrdersTable.details
      (OrdersTable.render_card (OrdersTable.onClick "A" OrdersTable.initial)
         (example_order 9999))
    = Some d /\
    OrdersTable.shown_subtotal d = Fin 1200 /\
    OrdersTable.shown_delivery_fee d = Some 300 /\
    OrdersTable.shown_total d = OrdersTable.total_amount (example_order 9999).
Proof.
  split; [repeat split|].
  apply (displayed_total_is_stored
           (OrdersTable.onClick "A" OrdersTable.initial) (example_order 9999));
    reflexivity.
Defined.

(** ** The settings table *)
Section SettingsTable.

Lemma with_key_none k rows :
  k ∉ Settings.key <$> rows -> with_key k rows = [].
Proof.
  unfold with_key. induction rows as [|r rows IH]; intros Hnot; [reflexivity|].
  cbn [fmap list_fmap] in Hnot. apply not_elem_of_cons in Hnot as [Hne Hnot].
  rewrite filter_cons_False by congruence. apply IH, Hnot.
Qed.

Lemma with_key_unique k rows :
  NoDup (Settings.key <$> rows) -> (length (with_key k rows) <= 1)%nat.
Proof.
  unfold with_key. induction rows as [|r rows IH]; intros Hnd; [cbn; lia|].
  cbn [fmap list_fmap] in Hnd. apply NoDup_cons in Hnd as [Hnot Hnd].
  destruct (decide (Settings.key r = k)) as [Hk|Hk].
  - rewrite filter_cons_True by exact Hk.
    fold (with_key k rows). rewrite with_key_none by congruence. cbn. lia.
  - rewrite filter_cons_False by exact Hk. apply IH, Hnd.
Qed.

Lemma with_key_update k v now rows :
  with_key k (update_rows k v now rows) = updated v now <$> with_key k rows.
Proof.
  unfold with_key, update_rows.
  induction rows as [|r rows IH]; [reflexivity|].
  cbn [fmap list_fmap]. destruct (decide (Settings.key r = k)) as [Hk|Hk].
  - rewrite !filter_cons_True by (cbn; exact Hk).
    cbn [fmap list_fmap]. f_equal. exact IH.
  - rewrite !filter_cons_False by exact Hk. exact IH.
Qed.

Lemma update_rows_keys k v now rows :
  Settings.key <$> update_rows k v now rows = Settings.key <$> rows.
Proof.
  unfold update_rows. rewrite <- list_fmap_compose.
  apply list_fmap_ext. intros ? r _. cbn. destruct (decide _); reflexivity.
Qed.

Lemma update_rows_others k v now rows :
  filter (fun r => Settings.key r <> k) (update_rows k v now rows)
  = filter (fun r => Settings.key r <> k) rows.
Proof.
  unfold update_rows. induction rows as [|r rows IH]; [reflexivity|].
  cbn [fmap list_fmap]. destruct (decide (Settings.key r = k)) as [Hk|Hk].
  - rewrite !filter_cons_False by (cbn; intros Hne; apply Hne, Hk). exact IH.
  - rewrite !filter_cons_True by exact Hk. f_equal. exact IH.
Qed.

Lemma with_key_absent k rows :
  with_key k rows = [] -> k ∉ Settings.key <$> rows.
Proof.
  unfold with_key. intros Hnil Hin.
  apply list_elem_of_fmap in Hin as (r & -> & Hr).
  exact (filter_nil_not_elem_of _ _ r Hnil eq_refl Hr).
Qed.

End SettingsTable.

(** ** Saving the setting *)
Section HandleSave.
Variable faults : Query -> bool.
Variable st : Admin.State.
Variable store : Db.
Variable now : string.

Local Abbreviation K := Admin.resend_api_key.
Local Abbreviation v := (Admin.resendApiKey st).

Ltac run_handler :=
  unfold Admin.run, Admin.handleSave, Admin.loadSettings, try_finally,
    try_catch, bind, setState, console_error, Admin.throw_on_error,
    Admin.select_id, Admin.select_value, Admin.update_setting,
    Admin.insert_setting, request, throw, ret;
  cbn -[with_key update_rows inserted_row].

Lemma handleSave_updates (r : Settings.row) :
  faults (SelectSettingId K) = false ->
  faults (UpdateSetting K v now) = false ->
  with_key K (Schema.settings store) = [r] ->
  Admin.run (Admin.handleSave now) faults st store
  = (Returned tt,
     {| component := after_save st saved_message;
        db := set_settings store (update_rows K v now (Schema.settings store));
        fault := faults;
        issued := [SelectSettingId K; UpdateSetting K v now];
        console := [] |}).
Proof.
  intros Hc Hu Hr. run_handler.
  rewrite Hc, Hr. cbn -[with_key update_rows inserted_row].
  rewrite Hu. reflexivity.
Qed.

Lemma handleSave_inserts :
  faults (SelectSettingId K) = false ->
  faults (InsertSetting K v Admin.static_description) = false ->
  with_key K (Schema.settings store) = [] ->
  Admin.run (Admin.handleSave now) faults st store
  = (Returned tt,
     {| component := after_save st saved_message;
        db := set_settings store
                (Schema.settings store
                 ++ [inserted_row store K v Admin.static_description]);
        fault := faults;
        issued := [SelectSettingId K; InsertSetting K v Admin.static_description];
        console := [] |}).
Proof.
  intros Hc Hi Hr. run_handler.
  rewrite Hc, Hr. cbn -[with_key update_rows inserted_row].
  rewrite Hi, Hr. reflexivity.
Qed.

Lemma handleSave_check_failed :
  faults (SelectSettingId K) = true ->
  with_key K (Schema.settings store) <> [] ->
  Admin.run (Admin.handleSave now) faults st store
  = (Returned tt,
     {| component := after_save st save_failed_message;
        db := store;
        fault := faults;
        issued := [SelectSettingId K; InsertSetting K v Admin.static_description];
        console :=
          [("Error:",
            if faults (InsertSetting K v Admin.static_description)
            then Unavailable else UniqueViolation)] |}).
Proof.
  intros Hc Hr. run_handler.
  rewrite Hc. cbn -[with_key update_rows inserted_row].
  destruct (faults (InsertSetting _ _ _)); [reflexivity|].
  destruct (with_key K (Schema.settings store)); [congruence|reflexivity].
Qed.

Lemma loadSettings_failed :
  faults (SelectSettingValue K) = true ->
  Admin.run Admin.loadSettings faults st store
  = (Returned tt,
     {| component := Admin.setFetching false st;
        db := store;
        fault := faults;
        issued := [SelectSettingValue K];
        console := [("Error loading settings:", Unavailable)] |}).
Proof. intros Hc. run_handler. rewrite Hc. reflexivity. Qed.

Lemma loadSettings_absent :
  faults (SelectSettingValue K) = false ->
  with_key K (Schema.settings store) = [] ->
  Admin.run Admin.loadSettings faults st store
  = (Returned tt,
     {| component := Admin.setFetching false st;
        db := store;
        fault := faults;
        issued := [SelectSettingValue K];
        console := [] |}).
Proof. intros Hc Hr. run_handler. rewrite Hc, Hr. reflexivity. Qed.

Lemma loadSettings_present (r : Settings.row) :
  faults (SelectSettingValue K) = false ->
  with_key K (Schema.settings store) = [r] ->
  Admin.run Admin.loadSettings faults st store
  = (Returned tt,
     {| component :=
          Admin.setFetching false (Admin.setResendApiKey (Settings.value r) st);
        db := store;
        fault := faults;
        issued := [SelectSettingValue K];
        console := [] |}).
Proof. intros Hc Hr. run_handler. rewrite Hc, Hr. reflexivity. Qed.

Lemma loadSettings_ambiguous :
  faults (SelectSettingValue K) = false ->
  (2 <= length (with_key K (Schema.settings store)))%nat ->
  Admin.run Admin.loadSettings faults st store
  = (Returned tt,
     {| component := Admin.setFetching false st;
        db := store;
        fault := faults;
        issued := [SelectSettingValue K];
        console := [("Error loading settings:", MultipleRows)] |}).
Proof.
  intros Hc Hr. run_handler. rewrite Hc.
  destruct (with_key K (Schema.settings store)) as [|r1 [|r2 rows]];
    cbn in Hr; try lia.
  reflexivity.
Qed.

End HandleSave.

Section Saves.
Local Abbreviation K := Admin.resend_api_key.

(** The two ways a save goes when every request is answered. *)
Lemma save_cases (page : Admin.State * Db) (e : string * string) :
  settings_unique page.2 ->
  (Admin.records K page.2 = [] /\
   Admin.save page e
   = (after_save (Admin.setResendApiKey e.1 page.1) saved_message,
      set_settings page.2
        (Schema.settings page.2
         ++ [inserted_row page.2 K e.1 Admin.static_description])))
  \/
  (exists r,
     Admin.records K page.2 = [r] /\
     Admin.save page e
     = (after_save (Admin.setResendApiKey e.1 page.1) saved_message,
        set_settings page.2 (update_rows K e.1 e.2 (Schema.settings page.2)))).
Proof.
  destruct page as [st store], e as [v now]. cbn [fst snd]. intros Hu.
  pose proof (with_key_unique K _ Hu) as Hlen.
  unfold Admin.records, Admin.save. cbn [fst snd].
  destruct (with_key K (Schema.settings store)) as [|r [|r' rows]] eqn:Hr;
    [left|right|cbn in Hlen; lia].
  - split; [reflexivity|].
    rewrite (handleSave_inserts no_faults _ store now) by done. reflexivity.
  - exists r. split; [reflexivity|].
    rewrite (handleSave_updates no_faults _ store now r) by done. reflexivity.
Qed.

Lemma save_result (page : Admin.State * Db) (e : string * string) :
  settings_unique page.2 ->
  settings_unique (Admin.save page e).2 /\
  Admin.message (Admin.save page e).1 = Some saved_message /\
  other_records K (Admin.save page e).2 = other_records K page.2 /\
  exists r,
    Admin.records K (Admin.save page e).2 = [r] /\
    Settings.key r = K /\ Settings.value r = e.1.
Proof.
  intros Hu. destruct (save_cases page e Hu) as [[Hr ->]|(r & Hr & ->)];
    unfold settings_unique, Admin.records, other_records in *; cbn [fst snd].
  - cbn [Schema.settings set_settings].
    split; [|split; [reflexivity|split]].
    + rewrite fmap_app. apply NoDup_app. split; [exact Hu|].
      split; [|apply NoDup_singleton].
      intros k Hk Hin. apply list_elem_of_singleton in Hin. subst k.
      revert Hk. cbn. apply with_key_absent, Hr.
    + rewrite filter_app, filter_cons_False, filter_nil, app_nil_r; [done|].
      cbn. intros Hne. apply Hne. reflexivity.
    + eexists. unfold with_key in *.
      rewrite filter_app, Hr, filter_cons_True by reflexivity.
      split; [reflexivity|]. split; reflexivity.
  - cbn [Schema.settings set_settings].
    split; [|split; [reflexivity|split]].
    + rewrite update_rows_keys. exact Hu.
    + apply update_rows_others.
    + exists (updated e.1 e.2 r). rewrite with_key_update, Hr.
      split; [reflexivity|]. split; [|reflexivity].
      assert (Hin : r ∈ with_key K (Schema.settings page.2))
        by (rewrite Hr; apply list_elem_of_here).
      apply list_elem_of_filter in Hin as [Hk _]. exact Hk.
Qed.

Lemma saves_unique (entries : list (string * string)) :
  forall page, settings_unique page.2 ->
               settings_unique (Admin.saves entries page).2.
Proof.
  induction entries as [|e entries IH]; intros page Hu; [exact Hu|].
  cbn. apply IH, save_result, Hu.
Qed.

End Saves.

(** ** Properties of the settings page *)

(** C4: saving is an upsert on the unique key.  Starting from a store
    that respects the uniqueness of [key], a save whose requests are
    answered reports success and: when a record with the key exists, it
    becomes that record with the new value and the timestamp of the
    save; when none exists, a record with the key, the value and the
    static description is added; records with other keys are left alone.
    After any sequence of saves there is exactly one record with the key
    and its value is the one saved last. *)
Theorem handleSave_upsert
    (page : Admin.State * Db) (earlier : list (string * string))
    (e : string * string) :
  settings_unique page.2 ->
  (forall r,
     Admin.records Admin.resend_api_key page.2 = [r] ->
     Admin.records Admin.resend_api_key (Admin.save page e).2
     = [updated e.1 e.2 r]) /\
  (Admin.records Admin.resend_api_key page.2 = [] ->
   exists r,
     Schema.settings (Admin.save page e).2 = Schema.settings page.2 ++ [r] /\
     Admin.records Admin.resend_api_key (Admin.save page e).2 = [r] /\
     Settings.key r = Admin.resend_api_key /\
     Settings.value r = e.1 /\
     Settings.description r = Some Admin.static_description) /\
  other_records Admin.resend_api_key (Admin.save page e).2
  = other_records Admin.resend_api_key page.2 /\
  Admin.message (Admin.save page e).1 = Some saved_message /\
  (exists r,
     Admin.records Admin.resend_api_key (Admin.saves (earlier ++ [e]) page).2
     = [r] /\
     Settings.key r = Admin.resend_api_key /\
     Settings.value r = e.1).
Proof.
  intros Hu.
  destruct (save_result page e Hu) as (_ & Hmsg & Hother & _).
  split; [|split; [|split; [exact Hother|split; [exact Hmsg|]]]].
  - intros r Hr.
    destruct (save_cases page e Hu) as [[Hnil _]|(r' & Hr' & ->)];
      [congruence|].
    unfold Admin.records in *. cbn [snd Schema.settings set_settings].
    rewrite with_key_update, Hr. reflexivity.
  - intros Hnil.
    destruct (save_cases page e Hu) as [[_ ->]|(r' & Hr' & _)];
      [|congruence].
    eexists. cbn [snd Schema.settings set_settings].
    split; [reflexivity|]. split; [|repeat split].
    unfold Admin.records, with_key in *. cbn [Schema.settings set_settings].
    rewrite filter_app, Hnil, filter_cons_True by reflexivity. reflexivity.
  - unfold Admin.saves. rewrite foldl_app. cbn [foldl].
    destruct (save_result (foldl Admin.save page earlier) e) as (_ & _ & _ & Hr).
    + apply (saves_unique earlier page Hu).
    + exact Hr.
Qed.

Lemma handleSave_upsert_witness :
  settings_unique (Admin.initial, sample_store).2 /\
  exists r,
    Admin.records Admin.resend_api_key
      (Admin.saves
         ([("re_first", "2024-02-01T10:00:00.000Z")]
          ++ [("re_second", "2024-02-02T10:00:00.000Z")])
         (Admin.initial, sample_store)).2
    = [r] /\
    Settings.key r = Admin.resend_api_key /\
    Settings.value r = "re_second".
Proof.
  assert (Hu : settings_unique (Admin.initial, sample_store).2)
    by apply NoDup_nil_2.
  split; [exact Hu|].
  apply (handleSave_upsert (Admin.initial, sample_store)
           [("re_first", "2024-02-01T10:00:00.000Z")]
           ("re_second", "2024-02-02T10:00:00.000Z") Hu).
Defined.

(** C8: loading the setting when no record has the key is not an error:
    nothing is logged, the value in the field stays what it was and the
    page leaves its loading state.  A load that fails ends in the very
    same page state, with the failure written to the console only: no
    message is set. *)
Theorem loadSettings_absent_or_failed
    (faults : Query -> bool) (st : Admin.State) (store : Db) :
  (faults (SelectSettingValue Admin.resend_api_key) = false ->
   Admin.records Admin.resend_api_key store = [] ->
   exists w,
     Admin.run Admin.loadSettings faults st store = (Returned tt, w) /\
     component w = Admin.setFetching false st /\
     console w = []) /\
  (faults (SelectSettingValue Admin.resend_api_key) = true \/
   (2 <= length (Admin.records Admin.resend_api_key store))%nat ->
   exists w err,
     Admin.run Admin.loadSettings faults st store = (Returned tt, w) /\
     component w = Admin.setFetching false st /\
     console w = [("Error loading settings:", err)]) /\
  Admin.resendApiKey (Admin.setFetching false st) = Admin.resendApiKey st /\
  Admin.message (Admin.setFetching false st) = Admin.message st /\
  Admin.fetching (Admin.setFetching false st) = false.
Proof.
  split; [|split; [|repeat split]].
  - intros Hc Hr. eexists. split; [apply loadSettings_absent; assumption|].
    split; reflexivity.
  - intros Hfail.
    destruct (faults (SelectSettingValue Admin.resend_api_key)) eqn:Hc.
    + do 2 eexists. split; [apply loadSettings_failed, Hc|]. split; reflexivity.
    + destruct Hfail as [?|Hlen]; [discriminate|].
      do 2 eexists. split; [apply loadSettings_ambiguous; assumption|].
      split; reflexivity.
Qed.

Lemma loadSettings_absent_or_failed_witness :
  (load_fails (SelectSettingValue Admin.resend_api_key) = true \/
   (2 <= length (Admin.records Admin.resend_api_key configured_store))%nat) /\
  exists w err,
    Admin.run Admin.loadSettings load_fails Admin.initial configured_store
    = (Returned tt, w) /\
    component w = Admin.setFetching false Admin.initial /\
    console w = [("Error loading settings:", err)].
Proof.
  split; [left; reflexivity|].
  apply (loadSettings_absent_or_failed load_fails Admin.initial configured_store).
  left. reflexivity.
Defined.

(** C10: [handleSave] ignores an error of the existence check.  When the
    check fails for a key that has a record, the save takes the insert
    branch (an insert is sent, no update), the insert is refused by the
    uniqueness of the key, the page shows the generic failure message,
    and the store is left as it was. *)
Theorem handleSave_check_error_ignored
    (faults : Query -> bool) (st : Admin.State) (store : Db) (now : string)
    (r : Settings.row) :
  faults (SelectSettingId Admin.resend_api_key) = true ->
  r ∈ Schema.settings store ->
  Settings.key r = Admin.resend_api_key ->
  exists w,
    Admin.run (Admin.handleSave now) faults st store = (Returned tt, w) /\
    issued w
    = [SelectSettingId Admin.resend_api_key;
       InsertSetting Admin.resend_api_key (Admin.resendApiKey st)
         Admin.static_description] /\
    (faults (InsertSetting Admin.resend_api_key (Admin.resendApiKey st)
               Admin.static_description) = false ->
     console w = [("Error:", UniqueViolation)]) /\
    Admin.message (component w) = Some save_failed_message /\
    db w = store.
Proof.
  intros Hc Hin Hk. eexists. split.
  { apply handleSave_check_failed; [exact Hc|].
    intros Hnil. apply (filter_nil_not_elem_of _ _ r Hnil Hk Hin). }
  cbn [issued console component db after_save Admin.message].
  split; [reflexivity|]. split; [|split; reflexivity].
  intros ->. reflexivity.
Qed.

Lemma handleSave_check_error_ignored_witness :
  (check_fails (SelectSettingId Admin.resend_api_key) = true /\
   setting_row 2 "resend_api_key" "re_old" ∈ Schema.settings configured_store /\
   Settings.key (setting_row 2 "resend_api_key" "re_old") = Admin.resend_api_key) /\
  exists w,
    Admin.run (Admin.handleSave "2024-02-01T10:00:00.000Z") check_fails
      (Admin.setResendApiKey "re_new" Admin.initial) configured_store
    = (Returned tt, w) /\
    issued w
    = [SelectSettingId Admin.resend_api_key;
       InsertSetting Admin.resend_api_key
         (Admin.resendApiKey (Admin.setResendApiKey "re_new" Admin.initial))
         Admin.static_description] /\
    (check_fails
       (InsertSetting Admin.resend_api_key
          (Admin.resendApiKey (Admin.setResendApiKey "re_new" Admin.initial))
          Admin.static_description) = false ->
     console w = [("Error:", UniqueViolation)]) /\
    Admin.message (component w) = Some save_failed_message /\
    db w = configured_store.
Proof.
  assert (Hin : setting_row 2 "resend_api_key" "re_old"
                ∈ Schema.settings configured_store).
  { apply elem_of_cons. right. apply elem_of_cons. left. reflexivity. }
  split; [repeat split; exact Hin|].
  apply (handleSave_check_error_ignored check_fails
           (Admin.setResendApiKey "re_new" Admin.initial) configured_store
           "2024-02-01T10:00:00.000Z" (setting_row 2 "resend_api_key" "re_old"));
    [reflexivity|exact Hin|reflexivity].
Defined.

(** ** The model at work *)

Example fl_rounds_to_even :
  fl (2 ^ 53 + 1) = Fin (2 ^ 53) /\ fl (2 ^ 53 + 3) = Fin (2 ^ 53 + 4) /\
  fl (- (2 ^ 60 + 200)) = Fin (- (2 ^ 60 + 256)) /\
  fl (2 ^ 1024 - 2 ^ 970) = PosInf.
Proof. vm_compute. repeat split. Qed.

(** The item query of order A fails and the one of B completes first:
    both orders are stored, newest first, A without items. *)
Example fetch_sample_store :
  (OrdersTable.run (OrdersTable.fetchOrders [1%nat; 0%nat])
     (items_fail_for "A") OrdersTable.initial sample_store).1 = Returned tt /\
  OrdersTable.orders
    (component
       (OrdersTable.run (OrdersTable.fetchOrders [1%nat; 0%nat])
          (items_fail_for "A") OrdersTable.initial sample_store).2)
  = [OrdersTable.with_items order_A [];
     OrdersTable.with_items order_B
       [{| OrdersTable.product_name := "biryani";
           OrdersTable.price := 700;
           OrdersTable.quantity := 1 |}]].
Proof. vm_compute. split; reflexivity. Qed.

(** An item query that never settles leaves the fetch suspended and the
    component loading. *)
Example fetch_suspended :
  (OrdersTable.run (OrdersTable.fetchOrders [0%nat])
     no_faults OrdersTable.initial sample_store).1 = Pending /\
  OrdersTable.render
    (component
       (OrdersTable.run (OrdersTable.fetchOrders [0%nat])
          no_faults OrdersTable.initial sample_store).2)
  = OrdersTable.Spinner.
Proof. vm_compute. split; reflexivity. Qed.

(** Two saves into an empty settings table leave one record. *)
Example save_twice :
  Schema.settings
    (Admin.saves
       [("re_first", "2024-02-01T10:00:00.000Z");
        ("re_second", "2024-02-02T10:00:00.000Z")]
       (Admin.initial, sample_store)).2
  = [{| Settings.id := 1;
        Settings.key := "resend_api_key";
        Settings.value := "re_second";
        Settings.description := Some "API key for Resend email service";
        Settings.updated_at := "2024-02-02T10:00:00.000Z" |}].
Proof. vm_compute. reflexivity. Qed.


(** * Further properties of the code *)

(** ** A fetch, whatever the completion order *)
Section FetchAnySchedule.
Context {A : Type}.

Lemma settle_all_outcomes (vals : list A) (schedule : list nat) :
  forall slots : list (option A),
    length slots = length vals ->
    (forall i v, slots !! i = Some (Some v) -> vals !! i = Some v) ->
    settle_all (Returned <$> vals) schedule slots = Returned vals \/
    settle_all (Returned <$> vals) schedule slots = Pending.
Proof.
  induction schedule as [|i rest IH]; intros slots Hlen Hok; cbn [settle_all].
  - destruct (mapM _ slots) as [vs|] eqn:Hm; [left|right; reflexivity].
    apply mapM_Some_1 in Hm. f_equal. apply list_eq. intros i.
    destruct (vs !! i) as [y|] eqn:Hy.
    + destruct (Forall2_lookup_r _ _ _ _ _ Hm Hy) as (x & Hx & ->).
      symmetry. apply Hok, Hx.
    + symmetry. apply lookup_ge_None. apply lookup_ge_None in Hy.
      apply Forall2_length in Hm. lia.
  - rewrite list_lookup_fmap.
    destruct (vals !! i) as [v|] eqn:Hv; cbn [fmap option_fmap option_map].
    + pose proof (lookup_lt_Some _ _ _ Hv) as Hi.
      apply IH; [by rewrite length_insert|].
      intros j u Hj. destruct (decide (i = j)) as [->|Hne].
      * rewrite list_lookup_insert_eq in Hj by lia. congruence.
      * rewrite list_lookup_insert_ne in Hj by done. eauto.
    + apply IH; assumption.
Qed.

Lemma settle_all_from_empty (vals : list A) (schedule : list nat) :
  settle_all (Returned <$> vals) schedule (replicate (length vals) None)
  = Returned vals \/
  settle_all (Returned <$> vals) schedule (replicate (length vals) None)
  = Pending.
Proof.
  apply settle_all_outcomes; [apply length_replicate|].
  intros i v Hi. apply lookup_replicate in Hi as [? _]. discriminate.
Qed.

End FetchAnySchedule.

Section FetchRuns.
Variable faults : Query -> bool.
Variable store : Db.
Variable st : OrdersTable.State.
Variable schedule : list nat.

(** A fetch whose top-level query is answered either completes with the
    joined orders or stays suspended on its item queries. *)
Lemma fetchOrders_run :
  faults SelectOrders = false ->
  OrdersTable.run (OrdersTable.fetchOrders schedule) faults st store
  = (Returned tt,
     {| component :=
          {| OrdersTable.orders := joined faults store <$> top_level store;
             OrdersTable.loading := false;
             OrdersTable.error := None;
             OrdersTable.expandedOrderId := OrdersTable.expandedOrderId st |};
        db := store; fault := faults;
        issued := fetch_requests store; console := [] |})
  \/
  OrdersTable.run (OrdersTable.fetchOrders schedule) faults st store
  = (Pending,
     {| component :=
          {| OrdersTable.orders := OrdersTable.orders st;
             OrdersTable.loading := true;
             OrdersTable.error := None;
             OrdersTable.expandedOrderId := OrdersTable.expandedOrderId st |};
        db := store; fault := faults;
        issued := fetch_requests store; console := [] |}).
Proof.
  intros Hq.
  unfold OrdersTable.run, OrdersTable.fetchOrders, try_finally, try_catch,
    bind, setState, OrdersTable.select_orders, request.
  cbn. rewrite Hq. cbn.
  unfold promise_all. fold (top_level store).
  rewrite (start_all_join faults store) by reflexivity. cbn.
  rewrite !length_fmap.
  rewrite <- (length_fmap (joined faults store) (top_level store)).
  destruct (settle_all_from_empty (joined faults store <$> top_level store)
              schedule) as [-> | ->]; [left|right]; reflexivity.
Qed.

End FetchRuns.

(** X1: a fetch only reads.  Whatever requests fail and in whatever order
    the item queries complete (or do not), the store is left as it was,
    nothing is written to the console, no update or insert is sent, the
    expanded row is kept, and the requests sent are the orders query
    alone when it fails, and otherwise the orders query followed by one
    item query per order, newest order first. *)
Theorem fetchOrders_read_only
    (faults : Query -> bool) (store : Db) (st : OrdersTable.State)
    (schedule : list nat) :
  let w := (OrdersTable.run (OrdersTable.fetchOrders schedule) faults st store).2 in
  db w = store /\
  console w = [] /\
  Forall (fun q => is_write q = false) (issued w) /\
  issued w
  = (if faults SelectOrders then [SelectOrders] else fetch_requests store) /\
  OrdersTable.expandedOrderId (component w) = OrdersTable.expandedOrderId st.
Proof.
  assert (Hreads : Forall (fun q => is_write q = false) (fetch_requests store)).
  { unfold fetch_requests. constructor; [reflexivity|].
    apply Forall_fmap, Forall_forall. intros i _. reflexivity. }
  destruct (faults SelectOrders) eqn:Hq.
  - rewrite (fetchOrders_unanswered faults store st schedule Hq). cbn.
    repeat split. repeat constructor.
  - destruct (fetchOrders_run faults store st schedule Hq) as [-> | ->]; cbn;
      repeat split; exact Hreads.
Qed.

(** X2: when the item query at position [k] never settles, the fetch
    stays suspended: the component keeps showing the spinner and the
    orders it held. *)
Theorem fetchOrders_suspended
    (faults : Query -> bool) (store : Db) (st : OrdersTable.State)
    (schedule : list nat) (k : nat) :
  faults SelectOrders = false ->
  (k < length (Schema.orders store))%nat ->
  k ∉ schedule ->
  exists w,
    OrdersTable.run (OrdersTable.fetchOrders schedule) faults st store
    = (Pending, w) /\
    OrdersTable.loading (component w) = true /\
    OrdersTable.render (component w) = OrdersTable.Spinner /\
    OrdersTable.orders (component w) = OrdersTable.orders st.
Proof.
  intros Hq Hk Hnot.
  assert (Hlen : length (joined faults store <$> top_level store)
                 = length (Schema.orders store)).
  { rewrite length_fmap. unfold top_level, order_created_at_desc.
    by rewrite merge_sort_Permutation. }
  pose proof (settle_all_pending (joined faults store <$> top_level store)
                schedule k) as Hpending.
  unfold OrdersTable.run, OrdersTable.fetchOrders, try_finally, try_catch,
    bind, setState, OrdersTable.select_orders, request.
  cbn. rewrite Hq. cbn.
  unfold promise_all. fold (top_level store).
  rewrite (start_all_join faults store) by reflexivity. cbn.
  rewrite !length_fmap.
  rewrite <- (length_fmap (joined faults store) (top_level store)).
  rewrite Hpending.
  - eexists. split; [reflexivity|]. repeat split.
  - lia.
  - exact Hnot.
  - apply length_replicate.
  - apply lookup_replicate_2. lia.
Qed.

Lemma fetchOrders_suspended_witness :
  (no_faults SelectOrders = false /\
   (1 < length (Schema.orders sample_store))%nat /\
   1%nat ∉ [0%nat]) /\
  exists w,
    OrdersTable.run (OrdersTable.fetchOrders [0%nat]) no_faults
      OrdersTable.initial sample_store
    = (Pending, w) /\
    OrdersTable.loading (component w) = true /\
    OrdersTable.render (component w) = OrdersTable.Spinner /\
    OrdersTable.orders (component w) = OrdersTable.orders OrdersTable.initial.
Proof.
  assert (Hk : (1 < length (Schema.orders sample_store))%nat) by (cbn; lia).
  assert (Hnot : 1%nat ∉ [0%nat]).
  { intros Hin. apply list_elem_of_singleton in Hin. discriminate. }
  split; [repeat split; assumption|].
  apply (fetchOrders_suspended no_faults sample_store OrdersTable.initial
           [0%nat] 1); [reflexivity|exact Hk|exact Hnot].
Defined.

(** X3: what is on screen once a fetch has completed.  It is the error
    box exactly when the orders query failed; with that query answered it
    is the empty notice exactly when there is no order, and otherwise one
    card per order, newest first, each headed by the stored total of its
    order; every card is collapsed unless a row was expanded before. *)
Theorem fetchOrders_view
    (faults : Query -> bool) (store : Db) (st : OrdersTable.State)
    (schedule : list nat) :
  schedule ≡ₚ seq 0 (length (Schema.orders store)) ->
  let v :=
    OrdersTable.render
      (component
         (OrdersTable.run (OrdersTable.fetchOrders schedule) faults st store).2) in
  (faults SelectOrders = true ->
   v = OrdersTable.ErrorBox "Failed to fetch orders") /\
  (faults SelectOrders = false -> Schema.orders store = [] ->
   v = OrdersTable.NoOrders) /\
  (faults SelectOrders = false -> Schema.orders store <> [] ->
   exists cards,
     v = OrdersTable.OrderList cards /\
     OrdersTable.card_key <$> cards = Orders.id <$> top_level store /\
     OrdersTable.header_total <$> cards
     = Orders.total_amount <$> top_level store /\
     (OrdersTable.expandedOrderId st = None ->
      Forall (fun c => OrdersTable.details c = None) cards)).
Proof.
  intros Hp v. subst v. split; [|split].
  - intros Hq. rewrite (fetchOrders_unanswered faults store st schedule Hq).
    reflexivity.
  - intros Hq Hnil.
    rewrite (fetchOrders_answered faults store st schedule Hq)
      by apply permutation_completes, Hp.
    cbn [snd component]. unfold OrdersTable.render. cbn.
    assert (Htop : top_level store = []).
    { apply Permutation_nil_r. rewrite <- Hnil. apply top_level_perm. }
    rewrite Htop. reflexivity.
  - intros Hq Hne.
    rewrite (fetchOrders_answered faults store st schedule Hq)
      by apply permutation_completes, Hp.
    cbn [snd component]. unfold OrdersTable.render. cbn.
    destruct (top_level store) as [|row rows] eqn:Htop.
    { exfalso. apply Hne. apply Permutation_nil_r.
      rewrite <- Htop. symmetry. apply top_level_perm. }
    cbn [fmap list_fmap]. eexists. split; [reflexivity|].
    split; [|split].
    + cbn. f_equal. rewrite <- !list_fmap_compose. reflexivity.
    + cbn. f_equal. rewrite <- !list_fmap_compose. reflexivity.
    + intros Hnone. rewrite <- fmap_cons.
      apply Forall_fmap, Forall_forall. intros o _.
      cbn. unfold OrdersTable.is_expanded. cbn. rewrite Hnone.
      rewrite bool_decide_eq_false_2 by discriminate. reflexivity.
Qed.

Lemma fetchOrders_view_witness :
  [1%nat; 0%nat] ≡ₚ seq 0 (length (Schema.orders sample_store)) /\
  exists cards,
    OrdersTable.render
      (component
         (OrdersTable.run (OrdersTable.fetchOrders [1%nat; 0%nat]) no_faults
            OrdersTable.initial sample_store).2)
    = OrdersTable.OrderList cards /\
    OrdersTable.card_key <$> cards = Orders.id <$> top_level sample_store /\
    OrdersTable.header_total <$> cards
    = Orders.total_amount <$> top_level sample_store /\
    (OrdersTable.expandedOrderId OrdersTable.initial = None ->
     Forall (fun c => OrdersTable.details c = None) cards).
Proof.
  assert (Hp : [1%nat; 0%nat] ≡ₚ seq 0 (length (Schema.orders sample_store))).
  { apply Permutation_swap. }
  split; [exact Hp|].
  apply (fetchOrders_view no_faults sample_store OrdersTable.initial
           [1%nat; 0%nat] Hp); [reflexivity|discriminate].
Defined.

(** X4: fetching again changes nothing.  A second fetch against the same
    store, started from the state the first one left and with its item
    queries completing in any other order, leaves the very same state:
    nothing is cached and nothing accumulates. *)
Theorem fetchOrders_again
    (faults : Query -> bool) (store : Db) (st : OrdersTable.State)
    (first second : list nat) :
  first ≡ₚ seq 0 (length (Schema.orders store)) ->
  second ≡ₚ seq 0 (length (Schema.orders store)) ->
  let st1 :=
    component
      (OrdersTable.run (OrdersTable.fetchOrders first) faults st store).2 in
  component
    (OrdersTable.run (OrdersTable.fetchOrders second) faults st1 store).2
  = st1.
Proof.
  intros H1 H2 st1. subst st1.
  destruct (faults SelectOrders) eqn:Hq.
  - rewrite !(fetchOrders_unanswered faults store _ _ Hq). reflexivity.
  - rewrite !(fetchOrders_answered faults store _ _ Hq)
      by (apply permutation_completes; assumption).
    reflexivity.
Qed.

Lemma fetchOrders_again_witness :
  ([1%nat; 0%nat] ≡ₚ seq 0 (length (Schema.orders sample_store)) /\
   [0%nat; 1%nat] ≡ₚ seq 0 (length (Schema.orders sample_store))) /\
  component
    (OrdersTable.run (OrdersTable.fetchOrders [0%nat; 1%nat])
       (items_fail_for "A")
       (component
          (OrdersTable.run (OrdersTable.fetchOrders [1%nat; 0%nat])
             (items_fail_for "A") OrdersTable.initial sample_store).2)
       sample_store).2
  = component
      (OrdersTable.run (OrdersTable.fetchOrders [1%nat; 0%nat])
         (items_fail_for "A") OrdersTable.initial sample_store).2.
Proof.
  assert (H1 : [1%nat; 0%nat] ≡ₚ seq 0 (length (Schema.orders sample_store))).
  { apply Permutation_swap. }
  assert (H2 : [0%nat; 1%nat] ≡ₚ seq 0 (length (Schema.orders sample_store))).
  { reflexivity. }
  split; [split; assumption|].
  apply (fetchOrders_again (items_fail_for "A") sample_store
           OrdersTable.initial [1%nat; 0%nat] [0%nat; 1%nat] H1 H2).
Defined.

(** ** More on the subtotal *)
Section SubtotalFacts.

Lemma exact_subtotal_cons i its :
  exact_subtotal (i :: its)
  = OrdersTable.price i * OrdersTable.quantity i + exact_subtotal its.
Proof. reflexivity. Qed.

Lemma magnitude_cons i its :
  magnitude (i :: its)
  = Z.abs (OrdersTable.price i * OrdersTable.quantity i) + magnitude its.
Proof. reflexivity. Qed.

Lemma exact_subtotal_perm l1 l2 :
  l1 ≡ₚ l2 -> exact_subtotal l1 = exact_subtotal l2.
Proof.
  induction 1; rewrite ?exact_subtotal_cons; [reflexivity|lia|lia|congruence].
Qed.

Lemma magnitude_perm l1 l2 : l1 ≡ₚ l2 -> magnitude l1 = magnitude l2.
Proof.
  induction 1; rewrite ?magnitude_cons; [reflexivity|lia|lia|congruence].
Qed.

Lemma exact_subtotal_bound its : Z.abs (exact_subtotal its) <= magnitude its.
Proof.
  induction its as [|i its IH]; [reflexivity|].
  rewrite exact_subtotal_cons, magnitude_cons. lia.
Qed.

Lemma round_shift_nonneg a k : 0 <= a -> 0 <= round_shift a k.
Proof.
  intros Ha. unfold round_shift.
  assert (0 <= Z.shiftr a k) by (apply Z.shiftr_nonneg, Ha).
  repeat destruct (_ <? _); try destruct (Z.even _); lia.
Qed.

Lemma round_magnitude_nonneg a : 0 <= a -> 0 <= round_magnitude a.
Proof.
  intros Ha. unfold round_magnitude.
  destruct (_ <=? _); [exact Ha|].
  apply Z.shiftl_nonneg, round_shift_nonneg, Ha.
Qed.

Lemma fl_nonneg z : 0 <= z -> nonneg_number (fl z).
Proof.
  intros Hz. unfold fl.
  pose proof (round_magnitude_nonneg (Z.abs z) (Z.abs_nonneg z)) as Hm.
  destruct (_ <=? _).
  - destruct (Z.ltb_spec z 0); [lia|exact I].
  - cbn. nia.
Qed.

Lemma add_nonneg x y :
  nonneg_number x -> nonneg_number y -> nonneg_number (add x y).
Proof.
  destruct x as [a| | |], y as [b| | |]; cbn; try tauto.
  intros Ha Hb. apply fl_nonneg. lia.
Qed.

End SubtotalFacts.

(** X5: the subtotal displayed for an order is the sum of the line
    totals displayed above it, added from the first line to the last. *)
Theorem subtotal_is_sum_of_lines (order : OrdersTable.Order) :
  OrdersTable.shown_subtotal (OrdersTable.render_details order)
  = sum_numbers
      (OrdersTable.line_total
         <$> OrdersTable.item_lines (OrdersTable.render_details order)).
Proof.
  cbn. unfold OrdersTable.calculateSubtotal, sum_numbers.
  rewrite <- list_fmap_compose, foldl_fmap. reflexivity.
Qed.

(** X6: within the exact range of [number] the subtotal does not depend
    on the order of the items at all: any two arrangements of the same
    items give the same subtotal. *)
Theorem calculateSubtotal_permutation (L L' : list OrdersTable.OrderItem) :
  L ≡ₚ L' ->
  magnitude L <= exact_range ->
  OrdersTable.calculateSubtotal L = OrdersTable.calculateSubtotal L'.
Proof.
  intros Hp Hm.
  rewrite (calculateSubtotal_in_range L Hm).
  rewrite (calculateSubtotal_in_range L')
    by (rewrite <- (magnitude_perm _ _ Hp); exact Hm).
  rewrite (exact_subtotal_perm _ _ Hp). reflexivity.
Qed.

Lemma calculateSubtotal_permutation_witness :
  ([item 500 2; item 200 1; item 50 4] ≡ₚ [item 50 4; item 500 2; item 200 1] /\
   magnitude [item 500 2; item 200 1; item 50 4] <= exact_range) /\
  OrdersTable.calculateSubtotal [item 500 2; item 200 1; item 50 4]
  = OrdersTable.calculateSubtotal [item 50 4; item 500 2; item 200 1].
Proof.
  assert (Hp : [item 500 2; item 200 1; item 50 4]
               ≡ₚ [item 50 4; item 500 2; item 200 1]).
  { symmetry. apply (Permutation_cons_append [item 500 2; item 200 1]). }
  assert (Hm : magnitude [item 500 2; item 200 1; item 50 4] <= exact_range)
    by (vm_compute; congruence).
  split; [split; assumption|].
  apply (calculateSubtotal_permutation _ _ Hp Hm).
Defined.

(** X7: within the exact range of [number] the subtotal of two lists of
    items put together is the sum of their subtotals. *)
Theorem calculateSubtotal_app (L1 L2 : list OrdersTable.OrderItem) :
  magnitude (L1 ++ L2) <= exact_range ->
  OrdersTable.calculateSubtotal (L1 ++ L2)
  = add (OrdersTable.calculateSubtotal L1) (OrdersTable.calculateSubtotal L2).
Proof.
  intros Hm. rewrite magnitude_app in Hm.
  pose proof (magnitude_nonneg L1). pose proof (magnitude_nonneg L2).
  pose proof (exact_subtotal_bound L1). pose proof (exact_subtotal_bound L2).
  rewrite (calculateSubtotal_in_range (L1 ++ L2))
    by (rewrite magnitude_app; lia).
  rewrite (calculateSubtotal_in_range L1), (calculateSubtotal_in_range L2)
    by lia.
  change (add (Fin (exact_subtotal L1)) (Fin (exact_subtotal L2)))
    with (fl (exact_subtotal L1 + exact_subtotal L2)).
  rewrite fl_exact by lia. rewrite exact_subtotal_app. reflexivity.
Qed.

Lemma calculateSubtotal_app_witness :
  magnitude ([item 500 2] ++ [item 200 1]) <= exact_range /\
  OrdersTable.calculateSubtotal ([item 500 2] ++ [item 200 1])
  = add (OrdersTable.calculateSubtotal [item 500 2])
      (OrdersTable.calculateSubtotal [item 200 1]).
Proof.
  split; [vm_compute; congruence|].
  apply (calculateSubtotal_app [item 500 2] [item 200 1]).
  vm_compute; congruence.
Defined.

(** X8: when no price and no quantity is negative, the subtotal is never
    [NaN] and never negative, however large the amounts: it is a
    non-negative number or, past the range of [number], +Infinity. *)
Theorem calculateSubtotal_nonneg (its : list OrdersTable.OrderItem) :
  Forall nonneg_item its ->
  nonneg_number (OrdersTable.calculateSubtotal its).
Proof.
  unfold OrdersTable.calculateSubtotal.
  assert (Hacc : nonneg_number (Fin 0)) by (cbn; lia).
  revert Hacc. generalize (Fin 0) as acc.
  induction its as [|i its IH]; intros acc Hacc Hall; [exact Hacc|].
  apply Forall_cons in Hall as [[Hp Hq] Hall]. cbn [foldl].
  apply IH; [|exact Hall].
  apply add_nonneg; [exact Hacc|].
  change (mul (Fin (OrdersTable.price i)) (Fin (OrdersTable.quantity i)))
    with (fl (OrdersTable.price i * OrdersTable.quantity i)).
  apply fl_nonneg. nia.
Qed.

Lemma calculateSubtotal_nonneg_witness :
  Forall nonneg_item large_order /\
  nonneg_number (OrdersTable.calculateSubtotal large_order).
Proof.
  assert (H : Forall nonneg_item large_order).
  { repeat constructor; vm_compute; congruence. }
  split; [exact H|].
  apply (calculateSubtotal_nonneg large_order H).
Defined.

(** ** Sequences of clicks *)
Section Clicks.

Lemma clicks_snoc ids x st :
  OrdersTable.clicks (ids ++ [x]) st
  = OrdersTable.onClick x (OrdersTable.clicks ids st).
Proof. unfold OrdersTable.clicks. rewrite foldl_snoc. reflexivity. Qed.

Lemma clicks_frame ids : forall st,
  OrdersTable.orders (OrdersTable.clicks ids st) = OrdersTable.orders st /\
  OrdersTable.loading (OrdersTable.clicks ids st) = OrdersTable.loading st /\
  OrdersTable.error (OrdersTable.clicks ids st) = OrdersTable.error st.
Proof.
  induction ids as [|x ids IH]; intros st; [repeat split|].
  change (OrdersTable.clicks (x :: ids) st)
    with (OrdersTable.clicks ids (OrdersTable.onClick x st)).
  destruct (IH (OrdersTable.onClick x st)) as (-> & -> & ->). repeat split.
Qed.

Lemma is_expanded_click st x :
  OrdersTable.is_expanded (OrdersTable.onClick x st) x
  = negb (OrdersTable.is_expanded st x).
Proof.
  unfold OrdersTable.onClick, OrdersTable.is_expanded. cbn.
  repeat (case_bool_decide; cbn); congruence.
Qed.

End Clicks.

(** X9: after any sequence of clicks only the row clicked last can be
    expanded: the expanded id is that row or none.  Clicks touch nothing
    else: the orders, the loading flag and the error stay as they were. *)
Theorem clicks_last_wins
    (ids : list string) (x : string) (st : OrdersTable.State) :
  let s := OrdersTable.clicks (ids ++ [x]) st in
  (OrdersTable.expandedOrderId s = None \/
   OrdersTable.expandedOrderId s = Some x) /\
  (forall y, y <> x -> OrdersTable.is_expanded s y = false) /\
  OrdersTable.orders s = OrdersTable.orders st /\
  OrdersTable.loading s = OrdersTable.loading st /\
  OrdersTable.error s = OrdersTable.error st.
Proof.
  intros s.
  assert (Hlast : OrdersTable.expandedOrderId s = None \/
                  OrdersTable.expandedOrderId s = Some x).
  { subst s. rewrite clicks_snoc. unfold OrdersTable.onClick. cbn.
    destruct (OrdersTable.is_expanded _ x); auto. }
  split; [exact Hlast|]. split; [|apply clicks_frame].
  intros y Hy. apply not_true_is_false. rewrite is_expanded_iff.
  destruct Hlast as [-> | ->]; congruence.
Qed.

(** X10: clicking the same row [n] times flips it [n] times: it ends
    expanded exactly when it started collapsed and [n] is odd, or started
    expanded and [n] is even. *)
Theorem clicks_parity (n : nat) (x : string) (st : OrdersTable.State) :
  OrdersTable.is_expanded (OrdersTable.clicks (replicate n x) st) x
  = xorb (OrdersTable.is_expanded st x) (Nat.odd n).
Proof.
  revert st. induction n as [|n IH]; intros st.
  - cbn. destruct (OrdersTable.is_expanded st x); reflexivity.
  - change (OrdersTable.clicks (replicate (S n) x) st)
      with (OrdersTable.clicks (replicate n x) (OrdersTable.onClick x st)).
    rewrite IH, is_expanded_click, Nat.odd_succ, <- Nat.negb_odd.
    destruct (OrdersTable.is_expanded st x), (Nat.odd n); reflexivity.
Qed.

(** ** A save, whatever fails *)

Ltac run_page :=
  unfold Admin.run, Admin.handleSave, Admin.loadSettings, try_finally,
    try_catch, bind, setState, console_error, Admin.throw_on_error,
    Admin.select_id, Admin.select_value, Admin.update_setting,
    Admin.insert_setting, request, throw, ret;
  cbn -[with_key update_rows inserted_row].

Section SaveOutcome.
Variable faults : Query -> bool.
Variable st : Admin.State.
Variable store : Db.
Variable now : string.

(** A save ends in one of three ways: the record is updated, a record is
    inserted, or the save fails and the store is left as it was. *)
Lemma handleSave_outcome :
  exists (write : Query) (m : Admin.Message) (store' : Db)
         (log : list (string * PostgrestError)),
    Admin.run (Admin.handleSave now) faults st store
    = (Returned tt,
       {| component := after_save st m; db := store'; fault := faults;
          issued := [SelectSettingId Admin.resend_api_key; write];
          console := log |}) /\
    (write = update_request st now \/ write = insert_request st) /\
    ((m = saved_message /\ log = [] /\ write = update_request st now /\
      (exists r, with_key Admin.resend_api_key (Schema.settings store) = [r]) /\
      store' = set_settings store
                 (update_rows Admin.resend_api_key (Admin.resendApiKey st) now
                    (Schema.settings store)))
     \/
     (m = saved_message /\ log = [] /\ write = insert_request st /\
      with_key Admin.resend_api_key (Schema.settings store) = [] /\
      store' = set_settings store
                 (Schema.settings store
                  ++ [inserted_row store Admin.resend_api_key
                        (Admin.resendApiKey st) Admin.static_description]))
     \/
     (m = save_failed_message /\ store' = store /\
      exists e, log = [("Error:", e)])).
Proof.
  unfold update_request, insert_request. run_page.
  destruct (faults (SelectSettingId Admin.resend_api_key)) eqn:Hc;
    cbn -[with_key update_rows inserted_row];
    destruct (with_key Admin.resend_api_key (Schema.settings store))
      as [|r [|r' rows]] eqn:Hr;
    cbn -[with_key update_rows inserted_row];
    repeat match goal with
           | |- context [faults ?q] =>
               destruct (faults q) eqn:?;
               cbn -[with_key update_rows inserted_row]
           end;
    rewrite ?Hr; cbn -[with_key update_rows inserted_row];
    do 4 eexists; (split; [reflexivity|]);
    (split; [first [left; reflexivity | right; reflexivity]|]);
    first
      [ left; repeat split; eauto; fail
      | right; left; repeat split; eauto; fail
      | right; right; repeat split; eauto ].
Qed.

End SaveOutcome.


(** X12: the message of a save is truthful.  When [handleSave] reports
    success the store holds exactly one record with the key and its value
    is the one typed; when it reports failure the store is exactly as it
    was before the save. *)
Theorem handleSave_message_truthful
    (faults : Query -> bool) (st : Admin.State) (store : Db) (now : string) :
  let w := (Admin.run (Admin.handleSave now) faults st store).2 in
  (Admin.message (component w) = Some saved_message ->
   exists r,
     Admin.records Admin.resend_api_key (db w) = [r] /\
     Settings.value r = Admin.resendApiKey st) /\
  (Admin.message (component w) = Some save_failed_message -> db w = store).
Proof.
  destruct (handleSave_outcome faults st store now)
    as (write & m & store' & log & Hrun & _ & Hcases).
  rewrite Hrun. cbn [snd component db after_save Admin.message].
  unfold Admin.records.
  destruct Hcases as [(-> & _ & _ & [r Hr] & ->)
                     |[(-> & _ & _ & Hr & ->)|(-> & -> & _)]].
  - split; [|discriminate]. intros _.
    cbn [Schema.settings set_settings]. rewrite with_key_update, Hr.
    eexists. split; reflexivity.
  - split; [|discriminate]. intros _.
    cbn [Schema.settings set_settings]. unfold with_key in *.
    rewrite filter_app, Hr, filter_cons_True by reflexivity.
    eexists. split; reflexivity.
  - split; [discriminate|reflexivity].
Qed.

(** X13: a save keeps the settings table in order, whatever fails.  If
    the keys of the table were unique they still are; the records with
    other keys are untouched; and the table gains at most one record. *)
Theorem handleSave_keeps_table
    (faults : Query -> bool) (st : Admin.State) (store : Db) (now : string) :
  settings_unique store ->
  let w := (Admin.run (Admin.handleSave now) faults st store).2 in
  settings_unique (db w) /\
  other_records Admin.resend_api_key (db w)
  = other_records Admin.resend_api_key store /\
  (length (Schema.settings store) <= length (Schema.settings (db w))
   <= S (length (Schema.settings store)))%nat.
Proof.
  intros Hu.
  destruct (handleSave_outcome faults st store now)
    as (write & m & store' & log & Hrun & _ & Hcases).
  rewrite Hrun. cbn [snd db].
  unfold settings_unique, other_records in *.
  destruct Hcases as [(_ & _ & _ & _ & ->)
                     |[(_ & _ & _ & Hr & ->)|(_ & -> & _)]];
    cbn [Schema.settings set_settings].
  - split; [by rewrite update_rows_keys|].
    split; [apply update_rows_others|].
    unfold update_rows. rewrite length_fmap. lia.
  - split; [|split].
    + rewrite fmap_app. apply NoDup_app. split; [exact Hu|].
      split; [|apply NoDup_singleton].
      intros k Hk Hin. apply list_elem_of_singleton in Hin. subst k.
      revert Hk. cbn. apply with_key_absent, Hr.
    + rewrite filter_app, filter_cons_False, filter_nil, app_nil_r; [done|].
      cbn. intros Hne. apply Hne. reflexivity.
    + rewrite length_app. cbn. lia.
  - split; [exact Hu|]. split; [reflexivity|lia].
Qed.

Lemma handleSave_keeps_table_witness :
  settings_unique configured_store /\
  settings_unique
    (db (Admin.run (Admin.handleSave "2024-02-01T10:00:00.000Z") check_fails
           (Admin.setResendApiKey "re_new" Admin.initial) configured_store).2) /\
  other_records Admin.resend_api_key
    (db (Admin.run (Admin.handleSave "2024-02-01T10:00:00.000Z") check_fails
           (Admin.setResendApiKey "re_new" Admin.initial) configured_store).2)
  = other_records Admin.resend_api_key configured_store /\
  (length (Schema.settings configured_store)
   <= length
        (Schema.settings
           (db (Admin.run (Admin.handleSave "2024-02-01T10:00:00.000Z")
                  check_fails
                  (Admin.setResendApiKey "re_new" Admin.initial)
                  configured_store).2))
   <= S (length (Schema.settings configured_store)))%nat.
Proof.
  assert (Hu : settings_unique configured_store).
  { unfold settings_unique. cbn. repeat constructor.
    - intros Hin. apply list_elem_of_singleton in Hin. discriminate.
    - intros Hin. inversion Hin. }
  split; [exact Hu|].
  apply (handleSave_keeps_table check_fails
           (Admin.setResendApiKey "re_new" Admin.initial) configured_store
           "2024-02-01T10:00:00.000Z" Hu).
Defined.

(** X14: when the existence check is answered and the write that follows
    fails on the way, the save reports the failure, logs the error, and
    leaves the store as it was, whether the record existed or not. *)
Theorem handleSave_write_fails
    (faults : Query -> bool) (st : Admin.State) (store : Db) (now : string) :
  faults (SelectSettingId Admin.resend_api_key) = false ->
  faults (update_request st now) = true ->
  faults (insert_request st) = true ->
  exists w,
    Admin.run (Admin.handleSave now) faults st store = (Returned tt, w) /\
    Admin.message (component w) = Some save_failed_message /\
    console w = [("Error:", Unavailable)] /\
    db w = store.
Proof.
  unfold update_request, insert_request. intros Hc Hu Hi. run_page.
  rewrite Hc. cbn -[with_key update_rows inserted_row].
  destruct (with_key Admin.resend_api_key (Schema.settings store))
    as [|r [|r' rows]];
    cbn -[with_key update_rows inserted_row]; rewrite ?Hu, ?Hi;
    eexists; repeat split.
Qed.

Lemma handleSave_write_fails_witness :
  (writes_fail (SelectSettingId Admin.resend_api_key) = false /\
   writes_fail
     (update_request (Admin.setResendApiKey "re_new" Admin.initial)
        "2024-02-01T10:00:00.000Z") = true /\
   writes_fail
     (insert_request (Admin.setResendApiKey "re_new" Admin.initial)) = true) /\
  exists w,
    Admin.run (Admin.handleSave "2024-02-01T10:00:00.000Z") writes_fail
      (Admin.setResendApiKey "re_new" Admin.initial) configured_store
    = (Returned tt, w) /\
    Admin.message (component w) = Some save_failed_message /\
    console w = [("Error:", Unavailable)] /\
    db w = configured_store.
Proof.
  split; [repeat split|].
  apply (handleSave_write_fails writes_fail
           (Admin.setResendApiKey "re_new" Admin.initial) configured_store
           "2024-02-01T10:00:00.000Z"); reflexivity.
Defined.

(** ** Loading, whatever fails *)


(** X16: what is saved is what is loaded.  After a save of [v] whose
    requests are answered, against a store with unique keys, a load on a
    freshly opened page (whatever its state) puts [v] in the field. *)
Theorem save_then_load
    (page : Admin.State * Db) (v now : string) (fresh : Admin.State) :
  settings_unique page.2 ->
  exists w,
    Admin.run Admin.loadSettings no_faults fresh
      (Admin.save page (v, now)).2
    = (Returned tt, w) /\
    Admin.resendApiKey (component w) = v /\
    Admin.fetching (component w) = false /\
    console w = [].
Proof.
  intros Hu.
  destruct (save_result page (v, now) Hu) as (_ & _ & _ & r & Hr & _ & Hv).
  eexists. split.
  { apply (loadSettings_present no_faults fresh _ r); [reflexivity|exact Hr]. }
  cbn. repeat split. exact Hv.
Qed.

Lemma save_then_load_witness :
  settings_unique (Admin.initial, configured_store).2 /\
  exists w,
    Admin.run Admin.loadSettings no_faults Admin.initial
      (Admin.save (Admin.initial, configured_store)
         ("re_new", "2024-02-01T10:00:00.000Z")).2
    = (Returned tt, w) /\
    Admin.resendApiKey (component w) = "re_new" /\
    Admin.fetching (component w) = false /\
    console w = [].
Proof.
  assert (Hu : settings_unique (Admin.initial, configured_store).2).
  { unfold settings_unique. cbn. repeat constructor.
    - intros Hin. apply list_elem_of_singleton in Hin. discriminate.
    - intros Hin. inversion Hin. }
  split; [exact Hu|].
  apply (save_then_load (Admin.initial, configured_store) "re_new"
           "2024-02-01T10:00:00.000Z" Admin.initial Hu).
Defined.

(** X17: saves never replace a record that exists.  When the key has a
    record, after any sequence of saves it is still that record: same
    [id], same [description] (the static description is written by an
    insert only), and the table has as many records as before. *)
Theorem saves_keep_record
    (entries : list (string * string)) (page : Admin.State * Db)
    (r : Settings.row) :
  settings_unique page.2 ->
  Admin.records Admin.resend_api_key page.2 = [r] ->
  exists r',
    Admin.records Admin.resend_api_key (Admin.saves entries page).2 = [r'] /\
    Settings.id r' = Settings.id r /\
    Settings.description r' = Settings.description r /\
    length (Schema.settings (Admin.saves entries page).2)
    = length (Schema.settings page.2).
Proof.
  revert page r. induction entries as [|e entries IH]; intros page r Hu Hr.
  - exists r. repeat split. exact Hr.
  - change (Admin.saves (e :: entries) page)
      with (Admin.saves entries (Admin.save page e)).
    pose proof (save_result page e Hu) as (Hu' & _).
    destruct (save_cases page e Hu) as [[Hnil _]|(r0 & Hr0 & Heq)];
      [congruence|].
    assert (r0 = r) by congruence. subst r0.
    assert (Hr' : Admin.records Admin.resend_api_key (Admin.save page e).2
                  = [updated e.1 e.2 r]).
    { rewrite Heq. unfold Admin.records in *.
      cbn [snd Schema.settings set_settings].
      rewrite with_key_update, Hr. reflexivity. }
    destruct (IH (Admin.save page e) _ Hu' Hr') as (r' & Hrec & Hid & Hd & Hlen).
    exists r'. split; [exact Hrec|]. split; [exact Hid|]. split; [exact Hd|].
    rewrite Hlen, Heq. cbn [snd Schema.settings set_settings].
    unfold update_rows. apply length_fmap.
Qed.

Lemma saves_keep_record_witness :
  (settings_unique (Admin.initial, configured_store).2 /\
   Admin.records Admin.resend_api_key (Admin.initial, configured_store).2
   = [setting_row 2 "resend_api_key" "re_old"]) /\
  exists r',
    Admin.records Admin.resend_api_key
      (Admin.saves
         [("re_1", "2024-02-01T10:00:00.000Z");
          ("re_2", "2024-02-02T10:00:00.000Z")]
         (Admin.initial, configured_store)).2
    = [r'] /\
    Settings.id r' = Settings.id (setting_row 2 "resend_api_key" "re_old") /\
    Settings.description r'
    = Settings.description (setting_row 2 "resend_api_key" "re_old") /\
    length
      (Schema.settings
         (Admin.saves
            [("re_1", "2024-02-01T10:00:00.000Z");
             ("re_2", "2024-02-02T10:00:00.000Z")]
            (Admin.initial, configured_store)).2)
    = length (Schema.settings (Admin.initial, configured_store).2).
Proof.
  assert (Hu : settings_unique (Admin.initial, configured_store).2).
  { unfold settings_unique. cbn. repeat constructor.
    - intros Hin. apply list_elem_of_singleton in Hin. discriminate.
    - intros Hin. inversion Hin. }
  assert (Hr : Admin.records Admin.resend_api_key
                 (Admin.initial, configured_store).2
               = [setting_row 2 "resend_api_key" "re_old"])
    by reflexivity.
  split; [split; assumption|].
  apply (saves_keep_record
           [("re_1", "2024-02-01T10:00:00.000Z");
            ("re_2", "2024-02-02T10:00:00.000Z")]
           (Admin.initial, configured_store)
           (setting_row 2 "resend_api_key" "re_old") Hu Hr).
Defined.

(** ** The migration *)
Section MigrationFacts.
Import Migration.

Lemma add_column_new t col db tb :
  db !! t = Some tb ->
  has_column tb (column_name col) = false ->
  add_column t col db
  = inr (<[t :=
             {| columns := columns tb ++ [col];
                rows := (fun r => <[column_name col := default_datum col]> r)
                          <$> rows tb |}]> db).
Proof. intros Ht Hc. unfold add_column. rewrite Ht, Hc. reflexivity. Qed.

Lemma add_column_duplicate t col db tb :
  db !! t = Some tb ->
  has_column tb (column_name col) = true ->
  add_column t col db = inl (DuplicateColumn t (column_name col)).
Proof. intros Ht Hc. unfold add_column. rewrite Ht, Hc. reflexivity. Qed.

(** The guard of the first statement looks at [order_items]: a
    [delivery_fee] column on [orders] does not stop the [ALTER TABLE]. *)
Lemma migrate_existing_column db tb :
  db !! "orders" = Some tb ->
  has_column tb "delivery_fee" = true ->
  column_listed db "order_items" "delivery_fee" = false ->
  migrate db = inl (DuplicateColumn "orders" "delivery_fee").
Proof.
  intros Ht Hc Hg. unfold migrate, add_unless_listed.
  cbn [column_name delivery_fee_column]. rewrite Hg.
  rewrite (add_column_duplicate "orders" delivery_fee_column db tb Ht Hc).
  reflexivity.
Qed.

Lemma migrate_fresh db tb :
  db !! "orders" = Some tb ->
  has_column tb "delivery_fee" = false ->
  has_column tb "total_amount" = false ->
  column_listed db "order_items" "delivery_fee" = false ->
  column_listed db "order_items" "total_amount" = false ->
  migrate db
  = inr (<["orders" :=
             {| columns := columns tb ++ [delivery_fee_column; total_amount_column];
                rows := with_fee_and_total <$> rows tb |}]> db).
Proof.
  intros Ht Hd Ha Hg1 Hg2. unfold migrate, add_unless_listed.
  cbn [column_name delivery_fee_column total_amount_column]. rewrite Hg1.
  rewrite (add_column_new "orders" delivery_fee_column db tb Ht Hd).
  assert (Hg2' : forall tb1,
             column_listed (<["orders" := tb1]> db) "order_items" "total_amount"
             = false).
  { intros tb1. unfold column_listed in *.
    rewrite lookup_insert_ne by discriminate. exact Hg2. }
  rewrite Hg2'.
  erewrite add_column_new; [|apply lookup_insert_eq|].
  - rewrite insert_insert_eq. cbn [columns rows column_name].
    rewrite <- app_assoc, <- list_fmap_compose. reflexivity.
  - unfold has_column in *. cbn [columns column_name].
    apply bool_decide_eq_false. apply bool_decide_eq_false in Ha.
    rewrite fmap_app, elem_of_app. intros [Hin|Hin]; [exact (Ha Hin)|].
    apply list_elem_of_singleton in Hin. discriminate.
Qed.

End MigrationFacts.

(** X18: on a database where [orders] has neither column and
    [order_items] lists neither, the migration succeeds: [orders] gains
    the integer columns [delivery_fee] and [total_amount], in that order
    after its own, with default 0; every order that exists reads 0 in
    both and keeps its other values; no other table is touched. *)
Theorem migrate_adds_columns
    (db : gmap string Migration.table) (tb : Migration.table) :
  db !! "orders" = Some tb ->
  Migration.has_column tb "delivery_fee" = false ->
  Migration.has_column tb "total_amount" = false ->
  Migration.column_listed db "order_items" "delivery_fee" = false ->
  Migration.column_listed db "order_items" "total_amount" = false ->
  exists db' tb',
    Migration.migrate db = inr db' /\
    db' !! "orders" = Some tb' /\
    Migration.columns tb'
    = Migration.columns tb
      ++ [Migration.delivery_fee_column; Migration.total_amount_column] /\
    Forall2
      (fun r r' =>
         r' !! "delivery_fee" = Some (Migration.DInt 0) /\
         r' !! "total_amount" = Some (Migration.DInt 0) /\
         forall c, c <> "delivery_fee" -> c <> "total_amount" ->
                   r' !! c = r !! c)
      (Migration.rows tb) (Migration.rows tb') /\
    (forall t, t <> "orders" -> db' !! t = db !! t).
Proof.
  intros Ht Hd Ha Hg1 Hg2.
  do 2 eexists. split; [apply (migrate_fresh db tb); assumption|].
  split; [apply lookup_insert_eq|]. cbn [Migration.columns Migration.rows].
  split; [reflexivity|]. split.
  - apply Forall2_fmap_r, Forall_Forall2_diag, Forall_forall.
    intros r _. unfold with_fee_and_total. split; [|split].
    + rewrite lookup_insert_ne by discriminate. apply lookup_insert_eq.
    + apply lookup_insert_eq.
    + intros c Hc1 Hc2. rewrite !lookup_insert_ne by congruence. reflexivity.
  - intros t Hne. apply lookup_insert_ne. congruence.
Qed.

Lemma migrate_adds_columns_witness :
  (catalog_before !! "orders" = Some orders_before /\
   Migration.has_column orders_before "delivery_fee" = false /\
   Migration.has_column orders_before "total_amount" = false /\
   Migration.column_listed catalog_before "order_items" "delivery_fee" = false /\
   Migration.column_listed catalog_before "order_items" "total_amount" = false) /\
  exists db' tb',
    Migration.migrate catalog_before = inr db' /\
    db' !! "orders" = Some tb' /\
    Migration.columns tb'
    = Migration.columns orders_before
      ++ [Migration.delivery_fee_column; Migration.total_amount_column] /\
    Forall2
      (fun r r' =>
         r' !! "delivery_fee" = Some (Migration.DInt 0) /\
         r' !! "total_amount" = Some (Migration.DInt 0) /\
         forall c, c <> "delivery_fee" -> c <> "total_amount" ->
                   r' !! c = r !! c)
      (Migration.rows orders_before) (Migration.rows tb') /\
    (forall t, t <> "orders" -> db' !! t = catalog_before !! t).
Proof.
  assert (H1 : catalog_before !! "orders" = Some orders_before)
    by (vm_compute; reflexivity).
  assert (H2 : Migration.has_column orders_before "delivery_fee" = false)
    by (vm_compute; reflexivity).
  assert (H3 : Migration.has_column orders_before "total_amount" = false)
    by (vm_compute; reflexivity).
  assert (H4 : Migration.column_listed catalog_before "order_items"
                 "delivery_fee" = false) by (vm_compute; reflexivity).
  assert (H5 : Migration.column_listed catalog_before "order_items"
                 "total_amount" = false) by (vm_compute; reflexivity).
  split; [repeat split; assumption|].
  apply (migrate_adds_columns catalog_before orders_before H1 H2 H3 H4 H5).
Defined.

(** X19: the migration cannot be run twice.  After a first run that added
    the columns, a second run is not skipped by its guards: it tries to
    add [delivery_fee] to [orders] again and is refused with a
    duplicate-column error. *)
Theorem migrate_twice_fails
    (db : gmap string Migration.table) (tb : Migration.table) :
  db !! "orders" = Some tb ->
  Migration.has_column tb "delivery_fee" = false ->
  Migration.has_column tb "total_amount" = false ->
  Migration.column_listed db "order_items" "delivery_fee" = false ->
  Migration.column_listed db "order_items" "total_amount" = false ->
  exists db',
    Migration.migrate db = inr db' /\
    Migration.migrate db'
    = inl (Migration.DuplicateColumn "orders" "delivery_fee").
Proof.
  intros Ht Hd Ha Hg1 Hg2.
  eexists. split; [apply (migrate_fresh db tb); assumption|].
  eapply migrate_existing_column.
  - apply lookup_insert_eq.
  - unfold Migration.has_column. cbn [Migration.columns].
    apply bool_decide_eq_true. rewrite fmap_app, elem_of_app. right.
    apply elem_of_cons. left. reflexivity.
  - unfold Migration.column_listed in *.
    rewrite lookup_insert_ne by discriminate. exact Hg1.
Qed.

Lemma migrate_twice_fails_witness :
  (catalog_before !! "orders" = Some orders_before /\
   Migration.has_column orders_before "delivery_fee" = false /\
   Migration.has_column orders_before "total_amount" = false /\
   Migration.column_listed catalog_before "order_items" "delivery_fee" = false /\
   Migration.column_listed catalog_before "order_items" "total_amount" = false) /\
  exists db',
    Migration.migrate catalog_before = inr db' /\
    Migration.migrate db'
    = inl (Migration.DuplicateColumn "orders" "delivery_fee").
Proof.
  assert (H1 : catalog_before !! "orders" = Some orders_before)
    by (vm_compute; reflexivity).
  assert (H2 : Migration.has_column orders_before "delivery_fee" = false)
    by (vm_compute; reflexivity).
  assert (H3 : Migration.has_column orders_before "total_amount" = false)
    by (vm_compute; reflexivity).
  assert (H4 : Migration.column_listed catalog_before "order_items"
                 "delivery_fee" = false) by (vm_compute; reflexivity).
  assert (H5 : Migration.column_listed catalog_before "order_items"
                 "total_amount" = false) by (vm_compute; reflexivity).
  split; [repeat split; assumption|].
  apply (migrate_twice_fails catalog_before orders_before H1 H2 H3 H4 H5).
Defined.

(** X20: the guards of the migration look at [order_items], not at
    [orders].  If [order_items] lists both columns the migration changes
    nothing, even when [orders] lacks them; and if [orders] has
    [delivery_fee] already while [order_items] does not list it, the
    migration is refused with a duplicate-column error. *)
Theorem migrate_guard_tests_order_items
    (db : gmap string Migration.table) :
  (Migration.column_listed db "order_items" "delivery_fee" = true ->
   Migration.column_listed db "order_items" "total_amount" = true ->
   Migration.migrate db = inr db) /\
  (forall tb,
     db !! "orders" = Some tb ->
     Migration.has_column tb "delivery_fee" = true ->
     Migration.column_listed db "order_items" "delivery_fee" = false ->
     Migration.migrate db
     = inl (Migration.DuplicateColumn "orders" "delivery_fee")).
Proof.
  split.
  - intros H1 H2. unfold Migration.migrate, Migration.add_unless_listed.
    cbn [Migration.column_name Migration.delivery_fee_column
           Migration.total_amount_column].
    rewrite H1, H2. reflexivity.
  - intros tb. apply migrate_existing_column.
Qed.

Lemma migrate_guard_tests_order_items_witness :
  (Migration.column_listed catalog_guarded "order_items" "delivery_fee" = true /\
   Migration.column_listed catalog_guarded "order_items" "total_amount" = true /\
   Migration.column_listed catalog_guarded "orders" "delivery_fee" = false) /\
  Migration.migrate catalog_guarded = inr catalog_guarded.
Proof.
  assert (H1 : Migration.column_listed catalog_guarded "order_items"
                 "delivery_fee" = true) by (vm_compute; reflexivity).
  assert (H2 : Migration.column_listed catalog_guarded "order_items"
                 "total_amount" = true) by (vm_compute; reflexivity).
  split; [repeat split; try assumption; vm_compute; reflexivity|].
  apply (migrate_guard_tests_order_items catalog_guarded); assumption.
Defined.

(** ** Expanding a row of a loaded table *)
Section Reveal.
Import OrdersTable.

Lemma details_of_cards (st : State) (os : list Order) :
  omap details (render_card st <$> os)
  = render_details <$> filter (fun o => is_expanded st (id o) = true) os.
Proof.
  induction os as [|o os IH]; [reflexivity|].
  cbn [fmap list_fmap omap list_omap]. fold (omap details (render_card st <$> os)).
  cbn [details render_card].
  destruct (is_expanded st (id o)) eqn:He.
  - rewrite filter_cons_True by exact He. cbn [fmap list_fmap].
    f_equal. exact IH.
  - rewrite filter_cons_False by congruence. exact IH.
Qed.

Lemma filter_absent_id (os : list Order) (i : string) :
  i ∉ id <$> os -> filter (fun o' => id o' = i) os = [].
Proof.
  induction os as [|b os IH]; intros Hnot; [reflexivity|].
  cbn [fmap list_fmap] in Hnot. apply not_elem_of_cons in Hnot as [Hne Hnot].
  rewrite filter_cons_False by congruence. apply IH, Hnot.
Qed.

Lemma filter_unique_id (os : list Order) (o : Order) :
  NoDup (id <$> os) -> o ∈ os ->
  filter (fun o' => id o' = id o) os = [o].
Proof.
  induction os as [|a os IH]; intros Hnd Hin; [inversion Hin|].
  cbn [fmap list_fmap] in Hnd. apply NoDup_cons in Hnd as [Hnot Hnd].
  apply elem_of_cons in Hin as [->|Hin].
  - rewrite filter_cons_True by reflexivity. f_equal.
    apply filter_absent_id, Hnot.
  - rewrite filter_cons_False; [apply IH; assumption|].
    intros Heq. apply Hnot. rewrite Heq. apply list_elem_of_fmap_2, Hin.
Qed.

End Reveal.

(** X21: clicking a collapsed row of a loaded table reveals that order
    and no other.  With distinct order ids, after the click the table
    shows one card per order and the only details on screen are those of
    the order clicked, with its own items, subtotal and stored total. *)
Theorem click_reveals_order (st : OrdersTable.State) (o : OrdersTable.Order) :
  OrdersTable.loading st = false ->
  OrdersTable.error st = None ->
  NoDup (OrdersTable.id <$> OrdersTable.orders st) ->
  o ∈ OrdersTable.orders st ->
  OrdersTable.is_expanded st (OrdersTable.id o) = false ->
  exists cards,
    OrdersTable.render (OrdersTable.onClick (OrdersTable.id o) st)
    = OrdersTable.OrderList cards /\
    length cards = length (OrdersTable.orders st) /\
    omap OrdersTable.details cards = [OrdersTable.render_details o].
Proof.
  intros Hl He Hnd Hin Hc.
  unfold OrdersTable.render, OrdersTable.onClick. cbn.
  rewrite Hl, He, Hc. cbn.
  destruct (OrdersTable.orders st) as [|a os] eqn:Hos; [inversion Hin|].
  rewrite <- Hos in *. eexists. split; [reflexivity|].
  split; [apply length_fmap|].
  rewrite details_of_cards.
  rewrite (list_filter_iff _ (fun o' => OrdersTable.id o' = OrdersTable.id o)).
  - rewrite (filter_unique_id _ o Hnd Hin). reflexivity.
  - intros o'. unfold OrdersTable.is_expanded. cbn.
    rewrite bool_decide_eq_true. split; congruence.
Qed.

Lemma click_reveals_order_witness :
  (OrdersTable.loading
     (OrdersTable.setLoading false
        (OrdersTable.setOrders [example_order 1500] OrdersTable.initial))
   = false /\
   OrdersTable.error
     (OrdersTable.setLoading false
        (OrdersTable.setOrders [example_order 1500] OrdersTable.initial))
   = None /\
   NoDup
     (OrdersTable.id
        <$> OrdersTable.orders
              (OrdersTable.setLoading false
                 (OrdersTable.setOrders [example_order 1500]
                    OrdersTable.initial))) /\
   example_order 1500
   ∈ OrdersTable.orders
       (OrdersTable.setLoading false
          (OrdersTable.setOrders [example_order 1500] OrdersTable.initial)) /\
   OrdersTable.is_expanded
     (OrdersTable.setLoading false
        (OrdersTable.setOrders [example_order 1500] OrdersTable.initial))
     (OrdersTable.id (example_order 1500)) = false) /\
  exists cards,
    OrdersTable.render
      (OrdersTable.onClick (OrdersTable.id (example_order 1500))
         (OrdersTable.setLoading false
            (OrdersTable.setOrders [example_order 1500] OrdersTable.initial)))
    = OrdersTable.OrderList cards /\
    length cards
    = length
        (OrdersTable.orders
           (OrdersTable.setLoading false
              (OrdersTable.setOrders [example_order 1500] OrdersTable.initial))) /\
    omap OrdersTable.details cards
    = [OrdersTable.render_details (example_order 1500)].
Proof.
  assert (Hnd : NoDup
                  (OrdersTable.id
                     <$> OrdersTable.orders
                           (OrdersTable.setLoading false
                              (OrdersTable.setOrders [example_order 1500]
                                 OrdersTable.initial)))).
  { cbn. apply NoDup_singleton. }
  assert (Hin : example_order 1500
                ∈ OrdersTable.orders
                    (OrdersTable.setLoading false
                       (OrdersTable.setOrders [example_order 1500]
                          OrdersTable.initial))).
  { cbn. apply list_elem_of_here. }
  split; [repeat split; assumption|].
  apply (click_reveals_order
           (OrdersTable.setLoading false
              (OrdersTable.setOrders [example_order 1500] OrdersTable.initial))
           (example_order 1500)); [reflexivity|reflexivity|exact Hnd|exact Hin|
                                   reflexivity].
Defined.

Lemma clicks_last_wins_witness :
  "A" <> "B" /\
  OrdersTable.is_expanded
    (OrdersTable.clicks (["A"; "A"; "A"] ++ ["B"]) OrdersTable.initial) "A"
  = false.
Proof.
  split; [discriminate|].
  apply (clicks_last_wins ["A"; "A"; "A"] "B" OrdersTable.initial).
  discriminate.
Defined.

Lemma handleSave_message_truthful_witness :
  Admin.message
    (component
       (Admin.run (Admin.handleSave "2024-02-01T10:00:00.000Z") check_fails
          (Admin.setResendApiKey "re_new" Admin.initial) configured_store).2)
  = Some save_failed_message /\
  db (Admin.run (Admin.handleSave "2024-02-01T10:00:00.000Z") check_fails
        (Admin.setResendApiKey "re_new" Admin.initial) configured_store).2
  = configured_store.
Proof.
  split; [reflexivity|].
  apply (handleSave_message_truthful check_fails
           (Admin.setResendApiKey "re_new" Admin.initial) configured_store
           "2024-02-01T10:00:00.000Z").
  reflexivity.
Defined.
